(** * Media Performance Dashboard (check2.py): a shallow embedding

    The script loads a spreadsheet into a pandas DataFrame, coerces the
    metric columns, derives the CPI column, filters, sorts and paginates
    the rows and renders one card per row of the current page.  This file
    embeds the data preparation, the filter/sort/paginate pipeline, the
    summary and the per-card classification with its two memoized network
    helpers, and proves properties of them.

    Conventions of the embedding:
    - Python floats are exact rationals ([Q]); NaN is the separate cell
      value [VNaN].
    - A DataFrame is its column list and its rows; a row is its index
      label and a finite map from column name to cell.
    - Library calls (pandas, requests, BeautifulSoup, the Streamlit
      widgets and [st.cache_data]) are modelled by their documented
      behaviour; what depends on the outside world or on the library
      version (the network, the markup parser, the parsing of numerals,
      numpy's sort kernel) is a [Variable] of a [Section].
    - Python strings are sequences of code points below 256. *)

From Stdlib Require Import Ascii String QArith Qround Sorting.Sorted Sorting.Permutation.
From stdpp Require Import gmap strings list sorting pretty.

Local Open Scope string_scope.

(** ** Python string operations used by the script *)

Module Py.

(** [s.startswith(p)] *)
Definition startswith (s p : string) : bool := String.prefix p s.

(** [sub in s] *)
Fixpoint contains (sub s : string) : bool :=
  String.prefix sub s ||
  match s with
  | EmptyString => false
  | String _ s' => contains sub s'
  end.

(** [s.split(sep)] for a one-character separator, as the list of
    segments; [cur] is the segment read so far. *)
Fixpoint split_go (sep : ascii) (cur : string) (s : string) : list string :=
  match s with
  | EmptyString => [cur]
  | String c s' =>
      if Ascii.eqb c sep
      then cur :: split_go sep EmptyString s'
      else split_go sep (cur +:+ String c EmptyString) s'
  end.

Definition split (sep : ascii) (s : string) : list string :=
  split_go sep EmptyString s.

(** [l[-1]]: raises IndexError on the empty list, here [None]. *)
Definition last_item {A} (l : list A) : option A := last l.

(** [s.replace(old, '')]: every non-overlapping occurrence of [old],
    scanning from the left, is removed.  [skip] counts the characters of
    a matched occurrence still to be dropped. *)
Fixpoint remove_go (old : string) (skip : nat) (s : string) : string :=
  match s with
  | EmptyString => EmptyString
  | String c s' =>
      match skip with
      | S k => remove_go old k s'
      | O =>
          if String.prefix old s
          then remove_go old (String.length old - 1) s'
          else String c (remove_go old 0 s')
      end
  end.

Definition remove_all (old s : string) : string :=
  match old with
  | EmptyString => s
  | _ => remove_go old 0 s
  end.

(** [str.isspace] on one code point below 256. *)
Definition isspace (c : ascii) : bool :=
  let n := nat_of_ascii c in
  ((9 <=? n)%nat && (n <=? 13)%nat) || ((28 <=? n)%nat && (n <=? 32)%nat)
  || (n =? 133)%nat || (n =? 160)%nat.

Fixpoint lstrip (s : string) : string :=
  match s with
  | EmptyString => EmptyString
  | String c s' => if isspace c then lstrip s' else s
  end.

Fixpoint rstrip (s : string) : string :=
  match s with
  | EmptyString => EmptyString
  | String c s' =>
      match rstrip s' with
      | EmptyString => if isspace c then EmptyString else String c EmptyString
      | r => String c r
      end
  end.

(** [s.strip()] *)
Definition strip (s : string) : string := rstrip (lstrip s).

(** [str.lower] on one code point below 256. *)
Definition lower_char (c : ascii) : ascii :=
  let n := nat_of_ascii c in
  if ((65 <=? n)%nat && (n <=? 90)%nat)
     || ((192 <=? n)%nat && (n <=? 222)%nat && negb (n =? 215)%nat)
  then ascii_of_nat (n + 32) else c.

(** [s.lower()] *)
Fixpoint lower (s : string) : string :=
  match s with
  | EmptyString => EmptyString
  | String c s' => String (lower_char c) (lower s')
  end.

End Py.

(** ** Exceptions *)

Inductive exn :=
| KeyError (key : string)
| RequestException
| ParserError
| IndexError
| FileNotFoundError.

Inductive outcome (A : Type) :=
| Ok (a : A)
| Raise (e : exn).
Arguments Ok {A} a.
Arguments Raise {A} e.

(** ** Cells, rows and frames *)

Inductive value :=
| VNum (q : Q)
| VStr (s : string)
| VNaN.

Definition isna (v : value) : bool :=
  match v with VNaN => true | _ => false end.

Definition is_num (v : value) : bool :=
  match v with VNum _ => true | _ => false end.

(** [==] on cells as [Series.isin] and [Series.replace] use it: numbers by
    value, strings by content, and a missing cell matches a missing one. *)
Definition value_eqb (a b : value) : bool :=
  match a, b with
  | VNum x, VNum y => Qeq_bool x y
  | VStr s, VStr t => String.eqb s t
  | VNaN, VNaN => true
  | _, _ => false
  end.

Record Row := mkRow { label : nat; cells : gmap string value }.

(** [row[col]]; a frame has a cell in every column of every row, a cell
    that is not there reads as missing. *)
Definition cell (r : Row) (col : string) : value :=
  default VNaN (cells r !! col).

Definition set_cell (col : string) (v : value) (r : Row) : Row :=
  mkRow (label r) (<[col := v]> (cells r)).

Record DataFrame := mkDF { columns : list string; rows : list Row }.

Definition has_column (df : DataFrame) (col : string) : bool :=
  bool_decide (col ∈ columns df).

(** [df[col] = f(df[col])] for a cell-wise [f]. *)
Definition map_column (col : string) (f : value → value) (df : DataFrame)
  : DataFrame :=
  mkDF (columns df) (map (λ r, set_cell col (f (cell r col)) r) (rows df)).

(** [df[col] = g(row)] for a new or existing column. *)
Definition assign_column (col : string) (g : Row → value) (df : DataFrame)
  : DataFrame :=
  mkDF (if has_column df col then columns df else columns df ++ [col])
       (map (λ r, set_cell col (g r) r) (rows df)).

(** ** load_data (lines 48-56) *)

Definition numeric_columns : list string :=
  ["Clicks"; "CTR"; "Impr."; "Cost"; "Installs";
   "Installs per (1000) impressions"].

Definition required_columns : list string :=
  ["Clicks"; "CTR"; "Impr."; "Cost"; "Installs"].

(** [Series.replace(a, b)] on one cell. *)
Definition replace_value (a b v : value) : value :=
  if value_eqb v a then b else v.

(** [/] on two cells of numeric columns; a missing operand gives a
    missing result. *)
Definition value_div (a b : value) : value :=
  match a, b with
  | VNum x, VNum y => VNum (x / y)%Q
  | _, _ => VNaN
  end.

(** [df['Cost'] / df['Installs'].replace(0,1)] on one row. *)
Definition cpi_of (r : Row) : value :=
  value_div (cell r "Cost")
            (replace_value (VNum 0%Q) (VNum 1%Q) (cell r "Installs")).

(** Lines 54-55. *)
Definition derive_cpi (df : DataFrame) : DataFrame :=
  if has_column df "Cost" && has_column df "Installs"
  then assign_column "CPI" cpi_of df
  else df.

(** [df.dropna(subset=cols)]: KeyError on a column that is not there,
    otherwise the rows that miss none of [cols]. *)
Definition complete (cols : list string) (r : Row) : bool :=
  forallb (λ c, negb (isna (cell r c))) cols.

Definition dropna (cols : list string) (df : DataFrame) : outcome DataFrame :=
  match List.find (λ c, negb (has_column df c)) cols with
  | Some c => Raise (KeyError c)
  | None => Ok (mkDF (columns df) (List.filter (complete cols) (rows df)))
  end.

Section Load.

(** How [pd.to_numeric] reads a text cell: [None] when it is not a
    numeral. *)
Variable parse_number : string → option Q.

(** [pd.to_numeric(_, errors="coerce")] on one cell. *)
Definition to_numeric (v : value) : value :=
  match v with
  | VNum q => VNum q
  | VStr s => match parse_number s with
              | Some q => VNum q
              | None => VNaN
              end
  | VNaN => VNaN
  end.

(** Lines 50-52. *)
Definition coerce_columns (df : DataFrame) : DataFrame :=
  foldl (λ d col, if has_column d col then map_column col to_numeric d else d)
        df numeric_columns.

(** Lines 50-52 seen from one row: [present] tells which columns the
    frame has. *)
Definition coerce_row (present : string → bool) (cols : list string)
    (r : Row) : Row :=
  foldl (λ r col, if present col
                  then set_cell col (to_numeric (cell r col)) r else r)
        r cols.

(** [load_data], applied to the frame that [pd.read_excel] returned. *)
Definition load_data (df : DataFrame) : outcome DataFrame :=
  match dropna required_columns (coerce_columns df) with
  | Raise e => Raise e
  | Ok d => Ok (derive_cpi d)
  end.

(** [load_data] seen from one row: a row survives when its coerced cells
    miss none of the required columns, and is then given its CPI. *)
Definition survives (df : DataFrame) (r : Row) : bool :=
  complete required_columns (coerce_row (has_column df) numeric_columns r).

Definition loaded_row (df : DataFrame) (r : Row) : Row :=
  let r' := coerce_row (has_column df) numeric_columns r in
  set_cell "CPI" (cpi_of r') r'.

End Load.

(** A reader of unsigned decimal integers, standing for [pd.to_numeric]
    on text cells in the examples. *)
Definition digit_of (c : ascii) : option Z :=
  let n := nat_of_ascii c in
  if (48 <=? n)%nat && (n <=? 57)%nat then Some (Z.of_nat (n - 48)) else None.

Fixpoint read_digits (acc : Z) (s : string) : option Z :=
  match s with
  | EmptyString => Some acc
  | String c s' =>
      match digit_of c with
      | Some d => read_digits (10 * acc + d)%Z s'
      | None => None
      end
  end.

Definition read_integer (s : string) : option Q :=
  match s with
  | EmptyString => None
  | _ => inject_Z <$> read_digits 0 s
  end.

(** A small sheet for the examples: six rows, among them one with text
    where a number is expected, one with a number written as text, one
    with no installs and one whose installs are missing. *)
Definition sheet_columns : list string :=
  ["Asset"; "Asset type"; "Performance"; "Clicks"; "CTR"; "Impr."; "Cost";
   "Installs"].

Definition sheet_row (i : nat) (asset type perf : string)
    (clicks ctr impr cost installs : value) : Row :=
  mkRow i (list_to_map
    [("Asset", VStr asset); ("Asset type", VStr type);
     ("Performance", VStr perf); ("Clicks", clicks); ("CTR", ctr);
     ("Impr.", impr); ("Cost", cost); ("Installs", installs)]).

Definition sheet : DataFrame :=
  mkDF sheet_columns
    [sheet_row 0 "https://youtu.be/abc123" "Video" "Best"
       (VNum 10) (VNum (1 # 10)) (VNum 100) (VNum 5) (VNum 0);
     sheet_row 1 "Banner text" "Text" "Low"
       (VStr "n/a") (VNum (1 # 20)) (VNum 40) (VNum 2) (VNum 1);
     sheet_row 2 "https://example.com/pic.jpg" "Image" "Good"
       (VNum 10) (VNum (1 # 5)) (VNum 50) (VNum 6) (VNum 3);
     sheet_row 3 "Second banner" "Text" "Good"
       (VStr "7") (VNum (7 # 100)) (VNum 100) (VNum 4) (VNum 2);
     sheet_row 4 "https://www.youtube.com/watch?v=q1" "Video" "Low"
       (VNum 3) (VNum (3 # 100)) (VNum 100) (VNum 9) VNaN;
     sheet_row 5 "httpbanner" "Text" "Best"
       (VNum 12) (VNum (3 # 25)) (VNum 100) (VNum 8) (VNum 4)].

(** The rows of [sheet] that [load_data] keeps. *)
Definition loaded_sheet : DataFrame :=
  match load_data read_integer sheet with
  | Ok df => df
  | Raise _ => mkDF [] []
  end.

(** ** Sidebar filters (lines 81-89) *)

(** [Series.unique()]: the distinct cells in order of first appearance. *)
Fixpoint unique_go (seen : list value) (l : list value) : list value :=
  match l with
  | [] => []
  | v :: l' =>
      if existsb (value_eqb v) seen then unique_go seen l'
      else v :: unique_go (v :: seen) l'
  end.

Definition unique (l : list value) : list value := unique_go [] l.

Definition column (df : DataFrame) (col : string) : list value :=
  map (λ r, cell r col) (rows df).

(** [Series.isin(values)] on one cell. *)
Definition isin (values : list value) (v : value) : bool :=
  existsb (value_eqb v) values.

(** What the sidebar widgets return on one run of the script. *)
Record Controls := mkControls {
  selected_assets : list value;
  selected_perf : list value;
  sort_by : string;
  order : string;
  page_typed : option Z
}.

(** Line 89. *)
Definition filter_frame (sel_assets sel_perf : list value) (df : DataFrame)
  : DataFrame :=
  mkDF (columns df)
       (List.filter (λ r, isin sel_assets (cell r "Asset type")
                          && isin sel_perf (cell r "Performance"))
                    (rows df)).

(** ** sort_values (line 91) *)

(** [l[p]]: the elements at the positions [p], in that order. *)
Definition take_at {A} (l : list A) (p : list nat) : list A :=
  omap (λ i, l !! i) p.

Section Kernel.

Context {A : Type}.

(** numpy's [argsort] of the kind in use: the positions of the keys, in
    the order that sorts them.  [sort_values] is called with the default
    kind, which promises nothing about ties. *)
Variable argsort : list Q → list nat.

Variable key : A → Q.

(** pandas' [nargsort] on rows without missing keys.  Ascending, the rows
    are taken at the kernel's positions; descending, the rows are
    reversed, taken at the kernel's positions for the reversed keys, and
    reversed back. *)
Definition nargsort (ascending : bool) (l : list A) : list A :=
  if ascending then take_at l (argsort (map key l))
  else rev (take_at (rev l) (argsort (map key (rev l)))).

End Kernel.

Section StableSort.

Context {A : Type}.
Variable key : A → Q.

(** [a] goes in front of the first element whose key is not smaller, so
    after every element with a smaller key and before its ties. *)
Fixpoint insert_by (a : A) (l : list A) : list A :=
  match l with
  | [] => [a]
  | b :: l' =>
      if Qle_bool (key a) (key b) then a :: b :: l'
      else b :: insert_by a l'
  end.

(** Insertion sort by increasing key; ties keep their order. *)
Definition stable_sort (l : list A) : list A :=
  foldr insert_by [] l.

(** What [nargsort] returns when the kernel is stable, on the rows
    themselves. *)
Definition sort_by_key (ascending : bool) (l : list A) : list A :=
  if ascending then stable_sort l else rev (stable_sort (rev l)).

End StableSort.

(** A stable kernel ([kind='stable']): the positions, sorted by their
    keys with ties in increasing position. *)
Definition stable_argsort (ks : list Q) : list nat :=
  map snd (stable_sort fst (zip ks (seq 0 (length ks)))).

(** The sort key of a cell that holds a number. *)
Definition num_key (v : value) : Q :=
  match v with VNum q => q | _ => 0%Q end.

(** ** Performance summary (lines 98-113) *)

Fixpoint numbers (l : list value) : list Q :=
  match l with
  | [] => []
  | VNum q :: l' => q :: numbers l'
  | _ :: l' => numbers l'
  end.

Definition Qsum (l : list Q) : Q := foldr Qplus 0%Q l.

(** [Series.mean()]: the mean of the cells that are not missing. *)
Definition mean (l : list value) : value :=
  match numbers l with
  | [] => VNaN
  | qs => VNum (Qsum qs / inject_Z (Z.of_nat (length qs)))%Q
  end.

Definition count_eq (v : value) (l : list value) : nat :=
  length (List.filter (value_eqb v) l).

Record Summary := mkSummary {
  avg_clicks : value;
  avg_impr : value;
  avg_installs : value;
  avg_cost : value;
  avg_ctr : value;
  avg_cpi : value;
  dist : list (value * nat)
}.

(** ** Pagination (lines 134-139) *)

Definition per_page : Z := 10.

(** [math.ceil(total/per_page)] *)
Definition ceil_div (total d : Z) : Z :=
  Qceiling (inject_Z total / inject_Z d)%Q.

(** [st.number_input(label, min_value, max_value, value)]: the default
    [value] until the user types a number.  A number within the bounds is
    returned; one outside them is not taken, and not clamped either: the
    widget returns its default. *)
Definition number_input (min_value max_value value : Z) (typed : option Z) : Z :=
  match typed with
  | None => value
  | Some v =>
      if (min_value <=? v)%Z && (v <=? max_value)%Z then v else value
  end.

(** A slice bound as Python normalises it against the length [n]. *)
Definition slice_bound (n i : Z) : Z :=
  if (i <? 0)%Z then Z.max 0 (n + i) else Z.min i n.

(** [l[start:stop]] *)
Definition iloc {A} (start stop : Z) (l : list A) : list A :=
  let n := Z.of_nat (length l) in
  let a := slice_bound n start in
  let b := slice_bound n stop in
  take (Z.to_nat (b - a)) (drop (Z.to_nat a) l).

Record Paging := mkPaging {
  pages : Z;
  page : Z;
  start : Z;
  subset : list Row
}.

Definition paginate (df_filtered : DataFrame) (typed : option Z) : Paging :=
  let total := Z.of_nat (length (rows df_filtered)) in
  let pages := ceil_div total per_page in
  let page := if (pages >? 1)%Z then number_input 1 pages 1 typed else 1%Z in
  let start := ((page - 1) * per_page)%Z in
  mkPaging pages page start (iloc start (start + per_page) (rows df_filtered)).

Inductive Screen :=
| NoData
| Dashboard (shown : nat) (summary : Summary) (paging : Paging).

(** ** One run of the script up to the card loop (lines 89-139) *)

Section Script.

(** The sort kernel of the numpy in use. *)
Variable argsort : list Q → list nat.

(** [df.sort_values(by=by_, ascending=ascending)]: the rows with a number
    in [by_] sorted on it, then the rows that miss it ([na_position] is
    'last' in both directions). *)
Definition sort_values (by_ : string) (ascending : bool) (df : DataFrame)
  : DataFrame :=
  let non_nans := List.filter (λ r, is_num (cell r by_)) (rows df) in
  let nans := List.filter (λ r, negb (is_num (cell r by_))) (rows df) in
  mkDF (columns df)
       (nargsort argsort (λ r, num_key (cell r by_)) ascending non_nans ++ nans).

(** [Series.value_counts()]: one count per distinct cell that is not
    missing, the larger counts first. *)
Definition value_counts (l : list value) : list (value * nat) :=
  let present := List.filter (λ v, negb (isna v)) l in
  nargsort argsort (λ p, inject_Z (Z.of_nat (snd p))) false
           (map (λ v, (v, count_eq v present)) (unique present)).

(** Lines 98-113: the [avg] lambda and [dist] read the loaded frame [df]. *)
Definition summarize (df : DataFrame) : Summary :=
  let avg := λ c, mean (column df c) in
  mkSummary (avg "Clicks") (avg "Impr.") (avg "Installs") (avg "Cost")
            (avg "CTR") (avg "CPI")
            (value_counts (column df "Asset type")).

(** Lines 89-91. *)
Definition filter_sort (df : DataFrame) (c : Controls) : DataFrame :=
  let df_filtered := filter_frame (selected_assets c) (selected_perf c) df in
  if negb (String.eqb (sort_by c) "None")
  then sort_values (sort_by c) (String.eqb (order c) "Low to High") df_filtered
  else df_filtered.

(** Lines 92-139: the warning and [st.stop()] on an empty selection,
    otherwise the count, the summary and the page. *)
Definition view (df : DataFrame) (c : Controls) : Screen :=
  let df_filtered := filter_sort df c in
  match rows df_filtered with
  | [] => NoData
  | _ => Dashboard (length (rows df_filtered)) (summarize df)
                   (paginate df_filtered (page_typed c))
  end.

End Script.

(** The default state of the two multiselects: every value selected. *)
Definition default_controls (df : DataFrame) : Controls :=
  mkControls (unique (column df "Asset type"))
             (unique (column df "Performance"))
             "None" "High to Low" None.

(** ** The world of the card loop: two caches and the network *)

Inductive Request :=
| GET (url : string)
| HEAD (url : string).

Record Response := mkResponse {
  status_code : Z;
  text : string;
  content_type : option string
}.

(** The two [st.cache_data] stores and the requests sent so far, the
    latest first. *)
Record World := mkWorld {
  title_cache : gmap string string;
  image_cache : gmap string bool;
  traffic : list Request
}.

(** A computation that reads and writes the world and may raise. *)
Definition M (A : Type) : Type := World → outcome A * World.

#[global] Instance M_ret : MRet M := λ A a w, (Ok a, w).

#[global] Instance M_bind : MBind M :=
  λ A B k m w, match m w with
               | (Ok a, w') => k a w'
               | (Raise e, w') => (Raise e, w')
               end.

Definition raise {A} (e : exn) : M A := λ w, (Raise e, w).

(** [try: body  except: handler], the bare [except] catching everything. *)
Definition try_except {A} (body handler : M A) : M A :=
  λ w, match body w with
       | (Ok a, w') => (Ok a, w')
       | (Raise _, w') => handler w'
       end.

Definition lift {A} (o : outcome A) : M A := λ w, (o, w).

Definition sent (r : Request) (w : World) : World :=
  mkWorld (title_cache w) (image_cache w) (r :: traffic w).

Definition put_title (url : string) (t : string) (w : World) : World :=
  mkWorld (<[url := t]> (title_cache w)) (image_cache w) (traffic w).

Definition put_image (url : string) (b : bool) (w : World) : World :=
  mkWorld (title_cache w) (<[url := b]> (image_cache w)) (traffic w).

(** [@st.cache_data] on a function of one string: a stored result is
    returned without running the function, a returned result is stored,
    a raised exception is not. *)
Definition cache_data {A} (store : World → gmap string A)
    (put : string → A → World → World) (f : string → M A) (url : string)
  : M A :=
  λ w, match store w !! url with
       | Some a => (Ok a, w)
       | None =>
           match f url w with
           | (Ok a, w') => (Ok a, put url a w')
           | (Raise e, w') => (Raise e, w')
           end
       end.

(** [url.split('/')[-1]] *)
Definition last_segment (url : string) : outcome string :=
  match Py.last_item (Py.split "/" url) with
  | Some s => Ok s
  | None => Raise IndexError
  end.

(** The text starts with "http://" or "https://", the case of the letters
    aside. *)
Definition http_scheme (s : string) : bool :=
  Py.startswith (Py.lower s) "http://" || Py.startswith (Py.lower s) "https://".

(** What requests needs of every URL before it sends anything: without a
    scheme it raises MissingSchema, and with a scheme that no connection
    adapter serves, InvalidSchema; leading blanks are dropped first. *)
Definition sendable (url : string) : bool :=
  http_scheme (Py.lstrip url).

Definition url_of (r : Request) : string :=
  match r with GET url | HEAD url => url end.

Inductive Kind := Video | Image | Text.

Record Card := mkCard {
  is_yt : bool;
  is_img : bool;
  display_title : value
}.

Definition kind (c : Card) : Kind :=
  if is_yt c then Video else if is_img c then Image else Text.

Section Cards.

(** What the network answers to the request sent after [n] earlier
    ones: a response, or an exception (timeout, refused connection, too
    many redirects). *)
Variable network : nat → Request → outcome Response.

(** Whether requests finds nothing else wrong with the URL when it
    prepares the request: a URL with no host or with an invalid label
    makes it raise InvalidURL, again before anything is sent. *)
Variable prepare_url : string → bool.

(** The URLs for which a request goes out. *)
Definition accepted (url : string) : bool :=
  sendable url && prepare_url url.

(** [BeautifulSoup(markup, 'html.parser').find('title')], as the text of
    the title element when there is one. *)
Variable find_title : string → outcome (option string).

(** [str(x)] of a number cell. *)
Variable repr_number : Q → string.

(** [requests.get] and [requests.head]: a URL that is not [accepted]
    raises at once and nothing is sent; otherwise the request goes out and
    the network gives its answer, which may be an exception too. *)
Definition request (r : Request) : M Response :=
  λ w, if accepted (url_of r)
       then (network (length (traffic w)) r, sent r w)
       else (Raise RequestException, w).

(** Lines 59-65, without the decorator. *)
Definition get_youtube_title_body (url : string) : M string :=
  try_except
    (res ← request (GET url);
     title_tag ← lift (find_title (text res));
     match title_tag with
     | Some t => mret (Py.strip (Py.remove_all " - YouTube" t))
     | None => lift (last_segment url)
     end)
    (lift (last_segment url)).

Definition get_youtube_title : string → M string :=
  cache_data title_cache put_title get_youtube_title_body.

(** Lines 68-73, without the decorator. *)
Definition is_image_url_body (url : string) : M bool :=
  try_except
    (res ← request (HEAD url);
     mret (Py.contains "image" (default "" (content_type res))))
    (mret false).

Definition is_image_url : string → M bool :=
  cache_data image_cache put_image is_image_url_body.

(** [str(row['Asset'])] *)
Definition py_str (v : value) : string :=
  match v with
  | VStr s => s
  | VNum q => repr_number q
  | VNaN => "nan"
  end.

(** Lines 147-156 for one row, [asset] being [row['Asset']]. *)
Definition card (asset : value) : M Card :=
  let url := py_str asset in
  let is_yt := Py.startswith url "http"
               && (Py.contains "youtube.com" url || Py.contains "youtu.be" url) in
  is_img ← (if Py.startswith url "http" && negb is_yt
            then is_image_url url else mret false);
  display_title ← (if is_yt then (t ← get_youtube_title url; mret (VStr t))
                   else if is_img then mret (VStr "")
                   else mret asset);
  mret (mkCard is_yt is_img display_title).

(** The card loop over the rows of the page, in their order. *)
Fixpoint cards (subset : list Row) : M (list Card) :=
  match subset with
  | [] => mret []
  | row :: rest =>
      c ← card (cell row "Asset");
      cs ← cards rest;
      mret (c :: cs)
  end.

End Cards.

(** The number of fetches of [r] among the requests sent. *)
Definition fetches (r : Request) (w : World) : nat :=
  length (List.filter (λ x, match x, r with
                            | GET a, GET b | HEAD a, HEAD b => String.eqb a b
                            | _, _ => false
                            end) (traffic w)).

(** What lines 61-65 return, as a function of the answer to the GET. *)
Definition title_of_answer (find_title : string → outcome (option string))
    (url : string) (answer : outcome Response) : outcome string :=
  match answer with
  | Ok res =>
      match find_title (text res) with
      | Ok (Some t) => Ok (Py.strip (Py.remove_all " - YouTube" t))
      | Ok None | Raise _ => last_segment url
      end
  | Raise _ => last_segment url
  end.

(** What lines 70-73 return, as a function of the answer to the HEAD. *)
Definition image_of_answer (answer : outcome Response) : bool :=
  match answer with
  | Ok res => Py.contains "image" (default "" (content_type res))
  | Raise _ => false
  end.

(** The world before the first card. *)
Definition fresh : World := mkWorld ∅ ∅ [].

(** ** Networks and a title reader for the examples *)

(** The rest of [s] after the first occurrence of [pat]. *)
Fixpoint after_first (pat s : string) : option string :=
  if String.prefix pat s then Some (String.substring (String.length pat)
                                      (String.length s) s)
  else match s with
       | EmptyString => None
       | String _ s' => after_first pat s'
       end.

(** The part of [s] before the first occurrence of [pat]. *)
Fixpoint before_first (pat s : string) : option string :=
  if String.prefix pat s then Some EmptyString
  else match s with
       | EmptyString => None
       | String c s' => String c <$> before_first pat s'
       end.

(** The text between the title tags of a page, when it has them. *)
Definition title_between_tags (markup : string) : outcome (option string) :=
  Ok (rest ← after_first "<title>" markup; before_first "</title>" rest).

(** The URLs of the examples that have a scheme have nothing else wrong
    with them. *)
Definition accepts_all (url : string) : bool := true.

(** Every connection is refused. *)
Definition refusing (n : nat) (r : Request) : outcome Response :=
  Raise RequestException.

(** Every page is a 404 page with a title of its own. *)
Definition not_found (n : nat) (r : Request) : outcome Response :=
  Ok (mkResponse 404 "<html><head><title>Not Found</title></head></html>"
                 (Some "text/html")).

(** A video page whose title names the site twice. *)
Definition video_host (n : nat) (r : Request) : outcome Response :=
  Ok (mkResponse 200
        "<html><title>Why - YouTube won - YouTube</title></html>"
        (Some "text/html; charset=utf-8")).

(** Every URL is a JPEG. *)
Definition image_host (n : nat) (r : Request) : outcome Response :=
  Ok (mkResponse 200 "" (Some "image/jpeg")).

(** A network whose pages change from one request to the next. *)
Definition changing (n : nat) (r : Request) : outcome Response :=
  match n with
  | O => Ok (mkResponse 200 "<title>First - YouTube</title>" None)
  | _ => Raise RequestException
  end.

(** [str(x)] of a number, for the examples: right on whole numbers. *)
Definition repr_whole (q : Q) : string :=
  pretty (Qfloor q) +:+ ".0".

(** The title with the one trailing site suffix removed and the
    surrounding blanks stripped, as section 4.3 of the specification
    words it. *)
Definition strip_trailing_suffix (suffix t : string) : string :=
  let n := String.length t - String.length suffix in
  if (String.length suffix <=? String.length t)%nat
     && String.eqb (String.substring n (String.length suffix) t) suffix
  then Py.strip (String.substring 0 n t)
  else Py.strip t.

(** ** The rest of the card: the embed URL (line 163) *)

(** [s.replace(old, new)] for a non-empty [old]: every non-overlapping
    occurrence of [old], scanning from the left, becomes [new].  [skip]
    counts the characters of a matched occurrence still to be dropped. *)
Fixpoint replace_go (old new : string) (skip : nat) (s : string) : string :=
  match s with
  | EmptyString => EmptyString
  | String c s' =>
      match skip with
      | S k => replace_go old new k s'
      | O =>
          if String.prefix old s
          then new +:+ replace_go old new (String.length old - 1) s'
          else String c (replace_go old new 0 s')
      end
  end.

(** With an empty [old], Python puts [new] before every character and at
    the end. *)
Fixpoint interleave (new s : string) : string :=
  match s with
  | EmptyString => new
  | String c s' => new +:+ String c (interleave new s')
  end.

Definition str_replace (old new s : string) : string :=
  match old with
  | EmptyString => interleave new s
  | _ => replace_go old new 0 s
  end.

(** Line 163. *)
Definition embed_url (url : string) : string :=
  str_replace "youtu.be/" "youtube.com/embed/"
              (str_replace "watch?v=" "embed/" url).

(** ** The grid of cards (lines 142-146) *)

(** [range(start, stop, step)] for a positive [step]; [fuel] bounds the
    number of items. *)
Fixpoint range_go (fuel start stop step : nat) : list nat :=
  match fuel with
  | O => []
  | S fuel' =>
      if (start <? stop)%nat
      then start :: range_go fuel' (start + step) stop step
      else []
  end.

Definition range (start stop step : nat) : list nat :=
  range_go stop start stop step.

(** The chunks [subset.iloc[row_start:row_start+5]] of the outer loop. *)
Definition grid (subset : list Row) : list (list Row) :=
  map (λ row_start : nat,
         iloc (Z.of_nat row_start) (Z.of_nat row_start + 5) subset)
      (range 0 (length subset) 5).

Section CardLoop.

Variable network : nat → Request → outcome Response.
Variable prepare_url : string → bool.
Variable find_title : string → outcome (option string).
Variable repr_number : Q → string.

(** The inner loop over one chunk: the card of the row at position [idx]
    goes to [cols[idx]], which is an IndexError when [cols] is that
    short. *)
Fixpoint chunk_cards (ncols idx : nat) (chunk : list Row)
  : M (list (nat * Card)) :=
  match chunk with
  | [] => mret []
  | row :: rest =>
      if (idx <? ncols)%nat
      then c ← card network prepare_url find_title repr_number (cell row "Asset");
           cs ← chunk_cards ncols (S idx) rest;
           mret ((idx, c) :: cs)
      else raise IndexError
  end.

(** Lines 142-173: every chunk is laid out in [st.columns(5)]. *)
Fixpoint chunks_cards (chunks : list (list Row))
  : M (list (list (nat * Card))) :=
  match chunks with
  | [] => mret []
  | chunk :: rest =>
      cs ← chunk_cards 5 0 chunk;
      css ← chunks_cards rest;
      mret (cs :: css)
  end.

Definition card_loop (subset : list Row) : M (list (list (nat * Card))) :=
  chunks_cards (grid subset).

End CardLoop.

(** ** The footer (lines 176-177) *)

(** The caption "Showing lo-hi of total", shown when there is more than
    one page. *)
Definition footer (total : Z) (p : Paging) : option (Z * Z * Z) :=
  if (pages p >? 1)%Z
  then Some ((start p + 1)%Z, Z.min (start p + per_page) total, total)
  else None.

(** ** Caches *)

(** Every entry of the caches of [w] is in the caches of [w'], with the
    same value. *)
Definition cache_extends (w w' : World) : Prop :=
  title_cache w ⊆ title_cache w' ∧ image_cache w ⊆ image_cache w'.

(** A sheet of 23 rows for the examples on pages: row [i] has [i] clicks. *)
Definition long_sheet : DataFrame :=
  mkDF sheet_columns
       (map (λ i : nat,
               sheet_row i "Banner" "Text" "Good"
                 (VNum (inject_Z (Z.of_nat i))) (VNum (1 # 10)) (VNum 100)
                 (VNum 5) (VNum 1))
            (seq 0 23)).

(** The sum of a column over all the rows of a frame, divided by the
    number of its rows. *)
Definition column_average (df : DataFrame) (c : string) : value :=
  VNum (Qsum (map (λ r, num_key (cell r c)) (rows df))
        / inject_Z (Z.of_nat (length (rows df))))%Q.

(** The rows of [long_sheet] that [load_data] keeps: all of them. *)
Definition loaded_long_sheet : DataFrame :=
  match load_data read_integer long_sheet with
  | Ok df => df
  | Raise _ => mkDF [] []
  end.

(** Lines 48-56 with line 49: [videos_xlsx] is what [pd.read_excel] makes
    of the file, a frame or the exception it raises. *)
Definition load_data_file (parse_number : string → option Q)
    (videos_xlsx : outcome DataFrame) : outcome DataFrame :=
  match videos_xlsx with
  | Raise e => Raise e
  | Ok df => load_data parse_number df
  end.

(** * Properties *)

Set Warnings "-clear-no-such-hyp".

Local Open Scope list_scope.

(** ** Cells and columns *)

Lemma cell_set_cell_eq col v r : cell (set_cell col v r) col = v.
Proof. unfold cell, set_cell; simpl. by rewrite lookup_insert_eq. Qed.

Lemma cell_set_cell_ne col col' v r :
  col ≠ col' → cell (set_cell col v r) col' = cell r col'.
Proof. intros Hne. unfold cell, set_cell; simpl. by rewrite lookup_insert_ne. Qed.

Lemma has_column_true df col : has_column df col = true ↔ col ∈ columns df.
Proof. unfold has_column. apply bool_decide_eq_true. Qed.

(** ** load_data *)

Section LoadFacts.

Variable parse_number : string → option Q.


Lemma coerce_row_ext p q cols r :
  (∀ c, p c = q c) → coerce_row parse_number p cols r = coerce_row parse_number q cols r.
Proof.
  intros Hpq. revert r. induction cols as [|c cols IH]; intros r; [done|].
  unfold coerce_row in *. simpl. rewrite Hpq. apply IH.
Qed.

Lemma label_coerce_row p cols r : label (coerce_row parse_number p cols r) = label r.
Proof.
  revert r. induction cols as [|c cols IH]; intros r; [done|].
  unfold coerce_row in *. simpl. rewrite IH. by destruct (p c).
Qed.

(** A row after lines 50-52: the cells of the listed columns that the
    frame has are coerced, every other cell is as it was. *)
Lemma cell_coerce_row p cols r c :
  NoDup cols →
  cell (coerce_row parse_number p cols r) c =
    if bool_decide (c ∈ cols) && p c then (to_numeric parse_number) (cell r c) else cell r c.
Proof.
  intros Hnd. revert r. induction Hnd as [|a cols Hna Hnd IH]; intros r; [done|].
  unfold coerce_row in *. simpl. rewrite IH.
  destruct (decide (c = a)) as [->|Hne].
  - rewrite (bool_decide_eq_false_2 (a ∈ cols)) by done.
    rewrite bool_decide_eq_true_2 by left. simpl.
    destruct (p a); [by rewrite cell_set_cell_eq | done].
  - assert (Hc : cell (if p a then set_cell a (to_numeric parse_number (cell r a)) r else r) c
                 = cell r c).
    { destruct (p a); [by rewrite cell_set_cell_ne | done]. }
    rewrite Hc.
    assert (Hb : bool_decide (c ∈ a :: cols) = bool_decide (c ∈ cols)).
    { apply bool_decide_ext. rewrite elem_of_cons. tauto. }
    by rewrite Hb.
Qed.

Lemma coerce_fold cols df :
  let step := λ d col, if has_column d col
                       then map_column col (to_numeric parse_number) d else d in
  columns (foldl step df cols) = columns df
  ∧ rows (foldl step df cols) = map (coerce_row parse_number (has_column df) cols) (rows df).
Proof.
  intros step. revert df. induction cols as [|c cols IH]; intros df; simpl.
  - split; [done|]. by rewrite map_id.
  - assert (Hcols : columns (step df c) = columns df).
    { unfold step. by destruct (has_column df c). }
    destruct (IH (step df c)) as [Hc Hr]. rewrite Hc, Hr. split; [done|].
    assert (Hrows : rows (step df c)
      = map (λ r, if has_column df c
                  then set_cell c (to_numeric parse_number (cell r c)) r else r) (rows df)).
    { unfold step. destruct (has_column df c); simpl; [done|by rewrite map_id]. }
    rewrite Hrows, map_map. apply map_ext. intros r.
    rewrite (coerce_row_ext _ (has_column df)).
    + reflexivity.
    + intros x. unfold has_column. by rewrite Hcols.
Qed.

Lemma columns_coerce_columns df : columns (coerce_columns parse_number df) = columns df.
Proof. apply (coerce_fold numeric_columns df). Qed.

Lemma rows_coerce_columns df :
  rows (coerce_columns parse_number df)
  = map (coerce_row parse_number (has_column df) numeric_columns) (rows df).
Proof. apply (coerce_fold numeric_columns df). Qed.

Lemma NoDup_numeric_columns : NoDup numeric_columns.
Proof. apply NoDup_ListNoDup. repeat constructor; simpl; intuition discriminate. Qed.

Lemma filter_map_comm {A B} (f : A → B) (P : B → bool) (l : list A) :
  List.filter P (map f l) = map f (List.filter (λ a, P (f a)) l).
Proof.
  induction l as [|a l IH]; [done|]. simpl. destruct (P (f a)); simpl; by rewrite IH.
Qed.

Lemma dropna_present cols df :
  (∀ c, c ∈ cols → c ∈ columns df) →
  dropna cols df = Ok (mkDF (columns df) (List.filter (complete cols) (rows df))).
Proof.
  intros Hall. unfold dropna.
  destruct (List.find _ cols) as [c|] eqn:E; [|done].
  apply find_some in E as [Hin Hneg]. apply list_elem_of_In, Hall in Hin.
  apply has_column_true in Hin. by rewrite Hin in Hneg.
Qed.

Lemma dropna_inv cols df d :
  dropna cols df = Ok d →
  (∀ c, c ∈ cols → c ∈ columns df)
  ∧ d = mkDF (columns df) (List.filter (complete cols) (rows df)).
Proof.
  unfold dropna. destruct (List.find _ cols) as [c|] eqn:E; [done|].
  intros [= <-]. split; [|done]. intros c Hc.
  apply list_elem_of_In in Hc. apply (find_none _ _ E) in Hc.
  apply has_column_true. by destruct (has_column df c).
Qed.

Lemma rows_derive_cpi d :
  "Cost" ∈ columns d → "Installs" ∈ columns d →
  rows (derive_cpi d) = map (λ r, set_cell "CPI" (cpi_of r) r) (rows d).
Proof.
  intros Hc Hi. unfold derive_cpi.
  rewrite (proj2 (has_column_true d "Cost") Hc).
  rewrite (proj2 (has_column_true d "Installs") Hi).
  reflexivity.
Qed.

Lemma load_data_present df :
  (∀ c, c ∈ required_columns → c ∈ columns df) →
  ∃ df', load_data parse_number df = Ok df'
         ∧ rows df' = map (loaded_row parse_number df)
                          (List.filter (survives parse_number df) (rows df)).
Proof.
  intros Hall. unfold load_data.
  rewrite dropna_present by (by rewrite columns_coerce_columns).
  eexists; split; [done|].
  rewrite rows_derive_cpi; cbn [columns rows].
  - by rewrite rows_coerce_columns, filter_map_comm, map_map.
  - rewrite columns_coerce_columns. apply Hall.
    unfold required_columns. set_solver.
  - rewrite columns_coerce_columns. apply Hall.
    unfold required_columns. set_solver.
Qed.

Lemma load_data_inv df df' :
  load_data parse_number df = Ok df' →
  (∀ c, c ∈ required_columns → c ∈ columns df)
  ∧ rows df' = map (loaded_row parse_number df) (List.filter (survives parse_number df) (rows df)).
Proof.
  intros Hload.
  assert (Hall : ∀ c, c ∈ required_columns → c ∈ columns df).
  { unfold load_data in Hload.
    destruct (dropna _ _) as [d|] eqn:E; [|done].
    apply dropna_inv in E as [Hall _]. by rewrite columns_coerce_columns in Hall. }
  split; [done|].
  destruct (load_data_present df Hall) as (d & Hd & Hrows). congruence.
Qed.

Lemma to_numeric_cases v :
  (∃ q, to_numeric parse_number v = VNum q) ∨ to_numeric parse_number v = VNaN.
Proof. destruct v as [q|s|]; simpl; eauto. destruct (parse_number s); eauto. Qed.

Lemma required_is_numeric c : c ∈ required_columns → c ∈ numeric_columns.
Proof. unfold required_columns, numeric_columns. set_solver. Qed.

(** The coerced cell of a required column of a frame that has it. *)
Lemma cell_coerced_required df r c :
  c ∈ columns df → c ∈ required_columns →
  cell (coerce_row parse_number (has_column df) numeric_columns r) c
  = to_numeric parse_number (cell r c).
Proof.
  intros Hc Hreq. rewrite cell_coerce_row by apply NoDup_numeric_columns.
  rewrite bool_decide_eq_true_2 by by apply required_is_numeric.
  by rewrite (proj2 (has_column_true df c) Hc).
Qed.

Lemma complete_spec cols r :
  complete cols r = true ↔ ∀ c, c ∈ cols → cell r c ≠ VNaN.
Proof.
  unfold complete. rewrite forallb_forall. split.
  - intros H c Hc Hna. apply list_elem_of_In, H in Hc. by rewrite Hna in Hc.
  - intros H c Hc. apply list_elem_of_In, H in Hc. by destruct (cell r c).
Qed.

(** A surviving row has a number in each required column, before and
    after its CPI is set. *)
Lemma survives_numeric df r c :
  (∀ c, c ∈ required_columns → c ∈ columns df) →
  survives parse_number df r = true → c ∈ required_columns →
  ∃ q, to_numeric parse_number (cell r c) = VNum q
       ∧ cell (loaded_row parse_number df r) c = VNum q.
Proof.
  intros Hall Hs Hc. unfold survives in Hs.
  rewrite complete_spec in Hs. specialize (Hs c Hc).
  rewrite cell_coerced_required in Hs by auto.
  destruct (to_numeric_cases (cell r c)) as [[q Hq]|Hna]; [|done].
  exists q. split; [done|]. unfold loaded_row.
  rewrite cell_set_cell_ne.
  - by rewrite cell_coerced_required by auto.
  - intros <-. unfold required_columns in Hc. set_solver.
Qed.

End LoadFacts.

Section LoadTheorems.

Variable parse_number : string → option Q.

(** C3: every row that survives [load_data] has a number as its CPI; it is
    Cost / Installs when Installs is positive and Cost itself when
    Installs is zero. *)
Theorem cpi_zero_guard (df df' : DataFrame) (r : Row) :
  load_data parse_number df = Ok df' →
  r ∈ rows df' →
  ∃ cost installs cpi : Q,
    cell r "Cost" = VNum cost ∧ cell r "Installs" = VNum installs
    ∧ cell r "CPI" = VNum cpi
    ∧ ((0 < installs)%Q → (cpi == cost / installs)%Q)
    ∧ ((installs == 0)%Q → (cpi == cost)%Q).
Proof.
  intros Hload Hr. apply load_data_inv in Hload as [Hall Hrows].
  rewrite Hrows in Hr. apply list_elem_of_In, in_map_iff in Hr as (r0 & <- & Hr0).
  apply filter_In in Hr0 as [_ Hs].
  destruct (survives_numeric parse_number df r0 "Cost" Hall Hs)
    as (cost & Hc0 & Hc); [unfold required_columns; set_solver|].
  destruct (survives_numeric parse_number df r0 "Installs" Hall Hs)
    as (inst & Hi0 & Hi); [unfold required_columns; set_solver|].
  exists cost, inst, (cost / (if Qeq_bool inst 0 then 1 else inst))%Q.
  split; [done|]. split; [done|]. split.
  - unfold loaded_row. rewrite cell_set_cell_eq. unfold cpi_of.
    rewrite !cell_coerced_required
      by (try apply Hall; unfold required_columns; set_solver).
    rewrite Hc0, Hi0. unfold replace_value; simpl.
    by destruct (Qeq_bool inst 0).
  - split.
    + intros Hpos. destruct (Qeq_bool inst 0) eqn:E; [|reflexivity].
      apply Qeq_bool_eq in E. rewrite E in Hpos. by apply Qlt_irrefl in Hpos.
    + intros Hz. rewrite (Qeq_eq_bool _ _ Hz). field.
Qed.

(** C7: when the sheet has the five metric columns, [load_data] returns a
    frame whatever the cells hold; every row of it has a number in each
    of the five columns; an input row with a cell among the five that
    does not coerce to a number is not in it, and every other input row
    is. *)
Theorem load_data_drops_unparsed (df : DataFrame) :
  (∀ c, c ∈ required_columns → c ∈ columns df) →
  NoDup (map label (rows df)) →
  ∃ df', load_data parse_number df = Ok df'
    ∧ (∀ r c, r ∈ rows df' → c ∈ required_columns → ∃ q, cell r c = VNum q)
    ∧ (∀ r c, r ∈ rows df → c ∈ required_columns →
         to_numeric parse_number (cell r c) = VNaN →
         label r ∉ map label (rows df'))
    ∧ (∀ r, r ∈ rows df →
         (∀ c, c ∈ required_columns →
               ∃ q, to_numeric parse_number (cell r c) = VNum q) →
         label r ∈ map label (rows df')).
Proof.
  intros Hall Hnd.
  destruct (load_data_present parse_number df Hall) as (df' & Hload & Hrows).
  exists df'. split; [done|]. rewrite Hrows. split; [|split].
  - intros r c Hr Hc.
    apply list_elem_of_In, in_map_iff in Hr as (r0 & <- & Hr0).
    apply filter_In in Hr0 as [_ Hs].
    destruct (survives_numeric parse_number df r0 c Hall Hs Hc) as (q & _ & Hq).
    by exists q.
  - intros r c Hr Hc Hna Hin.
    apply list_elem_of_In, in_map_iff in Hin as (r' & Hlab & Hr').
    apply in_map_iff in Hr' as (r0 & <- & Hr0).
    apply filter_In in Hr0 as [Hr0 Hs].
    unfold loaded_row, set_cell in Hlab; cbn [label] in Hlab.
    rewrite label_coerce_row in Hlab.
    assert (r0 = r) as ->.
    { apply list_elem_of_In in Hr0.
      apply list_elem_of_lookup in Hr0 as [i Hi], Hr as [j Hj].
      assert (i = j) as ->; [|congruence].
      apply (NoDup_lookup _ i j (label r) Hnd);
        change (map label (rows df)) with (label <$> rows df);
        rewrite list_lookup_fmap; [rewrite Hi|rewrite Hj]; simpl; congruence. }
    destruct (survives_numeric parse_number df r c Hall Hs Hc) as (q & Hq & _).
    congruence.
  - intros r Hr Hnum. apply list_elem_of_In, in_map_iff.
    exists (loaded_row parse_number df r). split.
    + unfold loaded_row, set_cell; cbn [label]. apply label_coerce_row.
    + apply in_map, filter_In. split; [by apply list_elem_of_In|].
      unfold survives. apply complete_spec. intros c Hc.
      rewrite cell_coerced_required by auto.
      destruct (Hnum c Hc) as [q ->]. done.
Qed.

(** Every column offered in the "Sort By" box holds a number in every row
    of a loaded frame, so [sort_values] has no missing key to set aside. *)
Lemma loaded_sort_columns_numeric df df' by_ :
  load_data parse_number df = Ok df' →
  by_ ∈ ["Clicks"; "Impr."; "CTR"; "Cost"; "Installs"; "CPI"] →
  Forall (λ r, is_num (cell r by_) = true) (rows df').
Proof.
  intros Hload Hby. apply load_data_inv in Hload as [Hall Hrows].
  rewrite Hrows. apply Forall_forall. intros r Hr.
  apply list_elem_of_In, in_map_iff in Hr as (r0 & <- & Hr0).
  apply filter_In in Hr0 as [_ Hs].
  destruct (decide (by_ = "CPI")) as [->|Hne].
  - unfold loaded_row. rewrite cell_set_cell_eq. unfold cpi_of.
    destruct (survives_numeric parse_number df r0 "Cost" Hall Hs)
      as (cost & Hc0 & _); [unfold required_columns; set_solver|].
    destruct (survives_numeric parse_number df r0 "Installs" Hall Hs)
      as (inst & Hi0 & _); [unfold required_columns; set_solver|].
    rewrite !cell_coerced_required
      by (try apply Hall; unfold required_columns; set_solver).
    rewrite Hc0, Hi0. unfold replace_value; simpl.
    by destruct (Qeq_bool inst 0).
  - destruct (survives_numeric parse_number df r0 by_ Hall Hs) as (q & _ & ->);
      [unfold required_columns; set_solver|done].
Qed.

End LoadTheorems.

Lemma cpi_zero_guard_witness :
  load_data read_integer sheet = Ok loaded_sheet
  ∧ ∃ r, rows loaded_sheet !! 0%nat = Some r
    ∧ ∃ cost installs cpi : Q,
        cell r "Cost" = VNum cost ∧ cell r "Installs" = VNum installs
        ∧ cell r "CPI" = VNum cpi
        ∧ ((0 < installs)%Q → (cpi == cost / installs)%Q)
        ∧ ((installs == 0)%Q → (cpi == cost)%Q).
Proof.
  split; [vm_compute; reflexivity|].
  eexists. split; [vm_compute; reflexivity|].
  apply (cpi_zero_guard read_integer sheet loaded_sheet).
  - vm_compute; reflexivity.
  - vm_compute. apply list_elem_of_here.
Defined.

Lemma load_data_drops_unparsed_witness :
  ∃ df', load_data read_integer sheet = Ok df'
    ∧ (∀ r c, r ∈ rows df' → c ∈ required_columns → ∃ q, cell r c = VNum q)
    ∧ (∀ r c, r ∈ rows sheet → c ∈ required_columns →
         to_numeric read_integer (cell r c) = VNaN →
         label r ∉ map label (rows df'))
    ∧ (∀ r, r ∈ rows sheet →
         (∀ c, c ∈ required_columns →
               ∃ q, to_numeric read_integer (cell r c) = VNum q) →
         label r ∈ map label (rows df')).
Proof.
  apply (load_data_drops_unparsed read_integer sheet).
  - intros c Hc. apply list_elem_of_In in Hc. apply list_elem_of_In.
    simpl in *. intuition.
  - apply NoDup_ListNoDup. vm_compute.
    repeat constructor; simpl; intuition discriminate.
Defined.

(** C9: lines 54-55 keep the rows and their labels, and change no cell of
    any column other than CPI; a zero in Installs stays a zero, the one
    that replaces it being only the divisor. *)
Theorem derive_cpi_frame (df : DataFrame) :
  Forall2 (λ r r', label r' = label r
                   ∧ (∀ c, c ≠ "CPI" → cell r' c = cell r c)
                   ∧ (cell r "Installs" = VNum 0 → cell r' "Installs" = VNum 0))
          (rows df) (rows (derive_cpi df))
  ∧ Forall (λ c, c ≠ "CPI")
           ["Asset"; "Asset type"; "Performance"; "Clicks"; "CTR"; "Impr.";
            "Cost"; "Installs"].
Proof.
  split.
  - unfold derive_cpi.
    destruct (has_column df "Cost" && has_column df "Installs"); simpl.
    + apply Forall2_fmap_r, Forall_Forall2_diag, Forall_forall.
      intros r _. split; [done|]. split.
      * intros c Hc. by apply cell_set_cell_ne.
      * intros H. by rewrite cell_set_cell_ne.
    + apply Forall_Forall2_diag, Forall_forall. intros r _. done.
  - repeat constructor; discriminate.
Qed.

(** ** The sort kernel *)

Section StableSortFacts.

Context {A : Type}.
Variable key : A → Q.

Local Abbreviation key_le := (λ a b : A, (key a <= key b)%Q).
Local Abbreviation key_lt := (λ a b : A, (key a < key b)%Q).
Local Abbreviation tied k := (λ a : A, Qeq_bool (key a) k).

Lemma insert_by_perm a l : Permutation (insert_by key a l) (a :: l).
Proof.
  induction l as [|b l IH]; simpl; [done|].
  destruct (Qle_bool (key a) (key b)); [done|].
  rewrite IH. apply perm_swap.
Qed.

Lemma stable_sort_cons a l :
  stable_sort key (a :: l) = insert_by key a (stable_sort key l).
Proof. reflexivity. Qed.

Lemma stable_sort_perm l : Permutation (stable_sort key l) l.
Proof.
  induction l as [|a l IH]; [done|].
  rewrite stable_sort_cons, insert_by_perm. by constructor.
Qed.

Lemma Qle_bool_false x y : Qle_bool x y = false → (y < x)%Q.
Proof.
  intros H. apply Qnot_le_lt. intros Hle.
  apply Qle_bool_iff in Hle. congruence.
Qed.

Lemma insert_by_sorted a l :
  StronglySorted key_le l → StronglySorted key_le (insert_by key a l).
Proof.
  induction 1 as [|b l Hl IH Hb]; simpl; [by repeat constructor|].
  destruct (Qle_bool (key a) (key b)) eqn:E.
  - apply Qle_bool_iff in E. constructor; [by constructor|].
    constructor; [done|]. eapply Forall_impl; [exact Hb|].
    intros x Hx; simpl in *. by eapply Qle_trans.
  - apply Qle_bool_false in E. constructor; [done|].
    rewrite insert_by_perm. constructor; [by apply Qlt_le_weak|done].
Qed.

Lemma stable_sort_sorted l : StronglySorted key_le (stable_sort key l).
Proof.
  induction l as [|a l IH]; [constructor|].
  rewrite stable_sort_cons. by apply insert_by_sorted.
Qed.



Lemma sort_by_key_perm asc l : Permutation (sort_by_key key asc l) l.
Proof.
  destruct asc; simpl; [apply stable_sort_perm|].
  rewrite <- Permutation_rev, stable_sort_perm. symmetry. apply Permutation_rev.
Qed.

Lemma StronglySorted_rev (R : relation A) l :
  StronglySorted R l → StronglySorted (flip R) (rev l).
Proof.
  induction 1 as [|a l Hl IH Ha]; simpl; [constructor|].
  apply StronglySorted_app_2; [|done|by repeat constructor].
  intros x y Hx Hy. apply list_elem_of_singleton in Hy as ->.
  apply list_elem_of_In, in_rev, list_elem_of_In in Hx.
  rewrite Forall_forall in Ha. by apply Ha.
Qed.

Lemma sort_by_key_ascending l :
  StronglySorted key_le (sort_by_key key true l).
Proof. apply stable_sort_sorted. Qed.

Lemma sort_by_key_descending l :
  StronglySorted (flip key_le) (sort_by_key key false l).
Proof. apply StronglySorted_rev, stable_sort_sorted. Qed.


Lemma insert_by_strict a l :
  StronglySorted key_lt l → Forall (λ b, ¬ (key a == key b)%Q) l →
  StronglySorted key_lt (insert_by key a l).
Proof.
  induction 1 as [|b l Hl IH Hb]; intros Hne; simpl; [by repeat constructor|].
  apply Forall_cons in Hne as [Hab Hne].
  destruct (Qle_bool (key a) (key b)) eqn:E.
  - apply Qle_bool_iff in E.
    assert (key a < key b)%Q as Hlt.
    { apply Qle_lteq in E as [?|?]; done. }
    constructor; [by constructor|].
    constructor; [done|]. eapply Forall_impl; [exact Hb|].
    intros x Hx; simpl in *. by eapply Qlt_trans.
  - apply Qle_bool_false in E. constructor; [by apply IH|].
    rewrite insert_by_perm. by constructor.
Qed.

Lemma stable_sort_strict l :
  ForallOrdPairs (λ a b, ¬ (key a == key b)%Q) l →
  StronglySorted key_lt (stable_sort key l).
Proof.
  induction 1 as [|a l Ha Hl IH]; [constructor|].
  rewrite stable_sort_cons. apply insert_by_strict; [done|].
  by rewrite stable_sort_perm.
Qed.

(** A list sorted without ties has no other sorted arrangement. *)
Lemma strict_sorted_unique l1 l2 :
  StronglySorted key_lt l1 → StronglySorted key_le l2 →
  Permutation l1 l2 → l1 = l2.
Proof.
  intros H1. revert l2. induction H1 as [|a l1 Hl1 IH Ha]; intros l2 H2 Hp.
  - by apply Permutation_nil in Hp.
  - destruct H2 as [|b l2 Hl2 Hb]; [by apply Permutation_sym, Permutation_nil_cons in Hp|].
    assert (a = b) as ->.
    { assert (In a (b :: l2)) as [?|Hin2]
        by (eapply Permutation_in; [exact Hp|by left]); [done|].
      assert (In b (a :: l1)) as [?|Hin1]
        by (eapply Permutation_in; [symmetry; exact Hp|by left]); [done|].
      rewrite Forall_forall in Ha, Hb.
      apply list_elem_of_In, Ha in Hin1. apply list_elem_of_In, Hb in Hin2.
      simpl in *. exfalso. eapply Qlt_irrefl, Qlt_le_trans; eauto. }
    f_equal. apply IH; [done|]. by apply Permutation_cons_inv in Hp.
Qed.


(** The same when the ascending result is what gets sorted again. *)
Lemma sort_by_key_again l :
  ForallOrdPairs (λ a b, ¬ (key a == key b)%Q) l →
  sort_by_key key false (sort_by_key key true l)
  = rev (sort_by_key key true l).
Proof.
  intros Hd. simpl. f_equal. symmetry. apply strict_sorted_unique.
  - by apply stable_sort_strict.
  - apply stable_sort_sorted.
  - rewrite (stable_sort_perm (rev _)). apply Permutation_rev.
Qed.

End StableSortFacts.

(** ** Sorting through a kernel *)

Lemma take_at_cons {A} (l : list A) i p :
  take_at l (i :: p)
  = match l !! i with Some a => a :: take_at l p | None => take_at l p end.
Proof. reflexivity. Qed.

Lemma take_at_nil {A} (p : list nat) : take_at ([] : list A) p = [].
Proof. induction p as [|i p IH]; [done|]. by rewrite take_at_cons. Qed.

Lemma take_at_seq_app {A} (l' l : list A) :
  take_at (l' ++ l) (seq (length l') (length l)) = l.
Proof.
  revert l'. induction l as [|a l IH]; intros l'; [done|].
  simpl length. simpl seq. rewrite take_at_cons.
  rewrite list_lookup_middle by done. f_equal.
  specialize (IH (l' ++ [a])).
  rewrite length_app, Nat.add_1_r, <- app_assoc in IH. exact IH.
Qed.

Lemma take_at_seq {A} (l : list A) : take_at l (seq 0 (length l)) = l.
Proof. apply (take_at_seq_app [] l). Qed.

Lemma take_at_perm {A} (l : list A) p :
  p ≡ₚ seq 0 (length l) → take_at l p ≡ₚ l.
Proof.
  intros Hp. unfold take_at. rewrite Hp. fold (take_at l (seq 0 (length l))).
  by rewrite take_at_seq.
Qed.










Lemma stable_argsort_perm ks : stable_argsort ks ≡ₚ seq 0 (length ks).
Proof.
  unfold stable_argsort. rewrite stable_sort_perm.
  change (map snd ?x) with (x.*2). rewrite snd_zip; [done|].
  by rewrite length_seq.
Qed.


Section KernelFacts.

Context {A : Type}.
Variable argsort : list Q → list nat.
Variable key : A → Q.

(** What makes [argsort] a sort kernel: it returns the positions of its
    input, and the keys taken at them increase. *)
Hypothesis argsort_perm : ∀ ks, argsort ks ≡ₚ seq 0 (length ks).
Hypothesis argsort_sorted : ∀ ks, StronglySorted Qle (take_at ks (argsort ks)).

Lemma nargsort_perm asc l : nargsort argsort key asc l ≡ₚ l.
Proof.
  destruct asc; simpl.
  - apply take_at_perm. by rewrite argsort_perm, length_map.
  - rewrite <- Permutation_rev, take_at_perm.
    + symmetry. apply Permutation_rev.
    + by rewrite argsort_perm, length_map.
Qed.






End KernelFacts.

(** Two rows that tie come out in the same order in both directions,
    whatever the kernel does with ties. *)
Lemma nargsort_two_ties {A} (argsort : list Q → list nat) (key : A → Q) a b :
  key a = key b →
  argsort [key a; key a] ≡ₚ [0; 1]%nat →
  nargsort argsort key false [a; b] = nargsort argsort key true [a; b]
  ∧ (a ≠ b →
     nargsort argsort key false [a; b] ≠ rev (nargsort argsort key true [a; b])).
Proof.
  intros Hk Hp. simpl. rewrite <- Hk.
  apply Permutation_sym, Permutation_length_2_inv in Hp as [-> | ->];
    simpl; (split; [done|]); intros Hne [=]; congruence.
Qed.

(** ** sort_values on a frame *)

Lemma filter_all {A} (P : A → bool) l :
  Forall (λ a, P a = true) l → List.filter P l = l.
Proof. induction 1 as [|a l Ha _ IH]; [done|]. simpl. by rewrite Ha, IH. Qed.







(** ** Pagination *)

Lemma ceil_div_opp total d :
  (0 < d)%Z → ceil_div total d = (- ((- total) / d))%Z.
Proof.
  intros Hd. unfold ceil_div, Qceiling, Qfloor.
  destruct d as [|p|p]; try lia. simpl.
  rewrite Z.mul_1_r. reflexivity.
Qed.

(** [ceil_div] is the least number of pages of [d] rows that hold [total]. *)
Lemma ceil_div_spec total d :
  (0 < d)%Z →
  (d * (ceil_div total d - 1) < total ≤ d * ceil_div total d)%Z.
Proof.
  intros Hd. rewrite ceil_div_opp by done.
  pose proof (Z.div_mod (- total) d ltac:(lia)).
  pose proof (Z.mod_pos_bound (- total) d Hd). nia.
Qed.

Lemma iloc_page {A} (l : list A) (start : Z) :
  (0 ≤ start ≤ Z.of_nat (length l))%Z →
  iloc start (start + per_page) l = take 10 (drop (Z.to_nat start) l).
Proof.
  intros Hs. unfold iloc, slice_bound, per_page.
  destruct (start <? 0)%Z eqn:E1; [lia|].
  destruct (start + 10 <? 0)%Z eqn:E2; [lia|].
  rewrite (Z.min_l start) by lia.
  destruct (decide (start + 10 ≤ Z.of_nat (length l))%Z) as [Hle|Hgt].
  - rewrite Z.min_l by lia. f_equal. lia.
  - rewrite Z.min_r by lia.
    rewrite !take_ge; [done| |]; rewrite length_drop; lia.
Qed.

Section ViewFacts.

Variable argsort : list Q → list nat.

Lemma view_no_data df c :
  rows (filter_sort argsort df c) = [] → view argsort df c = NoData.
Proof. intros H. unfold view. by rewrite H. Qed.

Lemma view_dashboard df c :
  rows (filter_sort argsort df c) ≠ [] →
  view argsort df c = Dashboard (length (rows (filter_sort argsort df c))) (summarize argsort df)
                        (paginate (filter_sort argsort df c) (page_typed c)).
Proof. intros H. unfold view. by destruct (rows (filter_sort argsort df c)). Qed.

(** C2, as the code has it: when at least one row passes the filters, the
    page count is max(1, ceil(total/10)); the page number lies in
    [1, pages]: it is the typed one when that lies in [1, pages] and 1
    otherwise (nothing typed, or a number out of range, which is not
    clamped); and the page holds the rows at positions
    [(page-1)*10, page*10) that exist. *)
Theorem view_paging (df : DataFrame) (c : Controls) :
  rows (filter_sort argsort df c) ≠ [] →
  let rs := rows (filter_sort argsort df c) in
  let total := Z.of_nat (length rs) in
  ∃ s p, view argsort df c = Dashboard (length rs) s p
    ∧ pages p = Z.max 1 (ceil_div total 10)
    ∧ (1 ≤ page p ≤ pages p)%Z
    ∧ page p = match page_typed c with
               | Some v =>
                   if (1 <=? v)%Z && (v <=? pages p)%Z then v else 1%Z
               | None => 1%Z
               end
    ∧ subset p = take 10 (drop (Z.to_nat ((page p - 1) * 10)) rs)
    ∧ (∀ i r, subset p !! i = Some r ↔
              (i < 10)%nat ∧ rs !! (Z.to_nat ((page p - 1) * 10) + i)%nat = Some r).
Proof.
  intros Hne rs total.
  exists (summarize argsort df), (paginate (filter_sort argsort df c) (page_typed c)).
  split; [by apply view_dashboard|].
  assert (Htot : (1 ≤ total)%Z).
  { subst total rs. destruct (rows (filter_sort argsort df c)); [done|simpl; lia]. }
  pose proof (ceil_div_spec total 10 ltac:(lia)) as Hceil.
  set (p := paginate (filter_sort argsort df c) (page_typed c)).
  assert (Hpages : pages p = ceil_div total 10) by reflexivity.
  assert (Hpage : page p = match page_typed c with
                           | Some v =>
                               if (1 <=? v)%Z && (v <=? pages p)%Z
                               then v else 1%Z
                           | None => 1%Z
                           end).
  { rewrite Hpages. subst p. unfold paginate; cbn [page]. fold rs; fold total.
    unfold per_page, number_input.
    destruct (Z.gtb_spec (ceil_div total 10) 1) as [E|E];
      destruct (page_typed c) as [v|]; try done.
    destruct (Z.leb_spec 1 v), (Z.leb_spec v (ceil_div total 10)); simpl; lia. }
  assert (Hrange : (1 ≤ page p ≤ pages p)%Z).
  { rewrite Hpage, Hpages. destruct (page_typed c) as [v|]; [|lia].
    destruct (Z.leb_spec 1 v), (Z.leb_spec v (ceil_div total 10)); simpl; lia. }
  assert (Hsub : subset p = take 10 (drop (Z.to_nat ((page p - 1) * 10)) rs)).
  { change (subset p)
      with (iloc ((page p - 1) * per_page) ((page p - 1) * per_page + per_page) rs).
    apply iloc_page. fold total. unfold per_page.
    rewrite Hpages in Hrange. lia. }
  split; [rewrite Hpages; lia|]. split; [done|]. split; [done|]. split; [done|].
  intros i r. rewrite Hsub. rewrite lookup_take_Some, lookup_drop. tauto.
Qed.

End ViewFacts.

Lemma view_paging_witness :
  let c := mkControls [VStr "Text"] [VStr "Good"]
                      "Clicks" "High to Low" (Some 2%Z) in
  rows (filter_sort stable_argsort loaded_long_sheet c) ≠ []
  ∧ ∃ s p, view stable_argsort loaded_long_sheet c = Dashboard 23 s p
    ∧ pages p = 3%Z ∧ page p = 2%Z
    ∧ map label (subset p) = [12; 11; 10; 9; 8; 7; 6; 5; 4; 3]%nat.
Proof.
  intros c.
  assert (Hne : rows (filter_sort stable_argsort loaded_long_sheet c) ≠ []).
  { vm_compute. discriminate. }
  split; [exact Hne|].
  destruct (view_paging stable_argsort loaded_long_sheet c Hne)
    as (s & p & Hv & Hpages & _ & Hpage & Hsub & _).
  assert (Hlen : length (rows (filter_sort stable_argsort loaded_long_sheet c))
                 = 23%nat) by (vm_compute; reflexivity).
  rewrite Hlen in Hv, Hpages.
  exists s, p. split; [exact Hv|].
  assert (Hp : pages p = 3%Z) by (rewrite Hpages; vm_compute; reflexivity).
  split; [exact Hp|].
  assert (Hq : page p = 2%Z) by (rewrite Hpage, Hp; vm_compute; reflexivity).
  split; [exact Hq|].
  rewrite Hsub, Hq. vm_compute. reflexivity.
Defined.

(** C2 as stated fails twice.  At zero rows the script warns and stops,
    and the page count that line 136 would compute is 0, not 1: here the
    one image of the loaded sheet is not among the best, and both values
    are options of their multiselect.  And a page number out of range is
    not clamped: page 7 of 3 gives page 1, not page 3. *)
Lemma no_pages_without_rows_no_clamp :
  let c := mkControls [VStr "Image"] [VStr "Best"] "None" "High to Low" None in
  Forall (λ v, isin (unique (column loaded_sheet "Asset type")) v = true)
         (selected_assets c)
  ∧ Forall (λ v, isin (unique (column loaded_sheet "Performance")) v = true)
           (selected_perf c)
  ∧ length (rows (filter_sort stable_argsort loaded_sheet c)) = 0%nat
  ∧ view stable_argsort loaded_sheet c = NoData
  ∧ pages (paginate (filter_sort stable_argsort loaded_sheet c) None) = 0%Z
  ∧ Z.max 1 (ceil_div 0 10) = 1%Z
  ∧ pages (paginate loaded_long_sheet (Some 7%Z)) = 3%Z
  ∧ page (paginate loaded_long_sheet (Some 7%Z)) = 1%Z
  ∧ Z.max 1 (Z.min 3 7) = 3%Z.
Proof.
  intros c. split; [vm_compute; by repeat constructor|].
  split; [vm_compute; by repeat constructor|].
  vm_compute. repeat split; reflexivity.
Qed.

(** ** The summary *)

Lemma value_eqb_refl v : value_eqb v v = true.
Proof.
  destruct v as [q|s|]; simpl; [|apply String.eqb_refl|done].
  by apply Qeq_bool_iff.
Qed.

Lemma value_eqb_trans a b c :
  value_eqb a b = true → value_eqb b c = true → value_eqb a c = true.
Proof.
  destruct a, b, c; simpl; try done.
  - rewrite !Qeq_bool_iff. intros -> ->. reflexivity.
  - rewrite !String.eqb_eq. congruence.
Qed.

Lemma existsb_value_eqb_trans a b l :
  value_eqb a b = true → existsb (value_eqb b) l = true →
  existsb (value_eqb a) l = true.
Proof.
  intros Hab. rewrite !existsb_exists. intros (x & Hx & Hbx).
  exists x. split; [done|]. by eapply value_eqb_trans.
Qed.

(** Every cell of a column is matched by the column's distinct values. *)
Lemma unique_go_covers seen l v :
  v ∈ l →
  existsb (value_eqb v) seen || existsb (value_eqb v) (unique_go seen l) = true.
Proof.
  revert seen. induction l as [|a l IH]; intros seen Hv; [by inv Hv|].
  simpl. destruct (existsb (value_eqb a) seen) eqn:Ea.
  - apply elem_of_cons in Hv as [->|Hv]; [by rewrite Ea|by apply IH].
  - simpl. apply elem_of_cons in Hv as [->|Hv].
    + rewrite value_eqb_refl. simpl. apply orb_true_r.
    + specialize (IH (a :: seen) Hv). simpl in IH.
      destruct (value_eqb v a); simpl in *; [apply orb_true_r|done].
Qed.

Lemma isin_unique l v : v ∈ l → isin (unique l) v = true.
Proof. intros Hv. apply (unique_go_covers [] l v Hv). Qed.

(** With every value selected the filter keeps every row. *)
Lemma filter_frame_default df :
  filter_frame (unique (column df "Asset type"))
               (unique (column df "Performance")) df = df.
Proof.
  destruct df as [cols rs]. unfold filter_frame; simpl. f_equal.
  apply filter_all, Forall_forall. intros r Hr.
  assert (∀ col, isin (unique (column (mkDF cols rs) col)) (cell r col) = true)
    as Hin.
  { intros col. apply isin_unique. unfold column; simpl.
    apply list_elem_of_In, in_map_iff. exists r.
    split; [done|by apply list_elem_of_In]. }
  by rewrite !Hin.
Qed.

Section SummaryFacts.

Variable argsort : list Q → list nat.

Lemma filter_sort_default df :
  filter_sort argsort df (default_controls df) = df.
Proof. unfold filter_sort, default_controls; simpl. apply filter_frame_default. Qed.

Lemma filter_frame_nonempty sa sp df :
  rows (filter_frame sa sp df) ≠ [] → rows df ≠ [].
Proof. intros H Hnil. apply H. unfold filter_frame; simpl. by rewrite Hnil. Qed.

Lemma filter_sort_nonempty df c :
  rows (filter_sort argsort df c) ≠ [] → rows df ≠ [].
Proof.
  unfold filter_sort. intros H.
  apply (filter_frame_nonempty (selected_assets c) (selected_perf c)).
  destruct (negb _); [|done].
  intros Hnil. apply H. unfold sort_values; cbn [rows]. rewrite Hnil.
  destruct (String.eqb _ _); simpl; by rewrite take_at_nil.
Qed.

(** C6, as the code has it: whenever the filters leave at least one row, the summary
    shown is that of the whole loaded frame, the one shown with every
    value selected; each average is the mean of a column of the loaded
    frame and the distribution counts its asset types. *)
Theorem summary_of_loaded_frame (df : DataFrame) (c : Controls) :
  rows (filter_sort argsort df c) ≠ [] →
  ∃ p p0,
    view argsort df c = Dashboard (length (rows (filter_sort argsort df c))) (summarize argsort df) p
    ∧ view argsort df (default_controls df)
      = Dashboard (length (rows df)) (summarize argsort df) p0
    ∧ avg_clicks (summarize argsort df) = mean (column df "Clicks")
    ∧ avg_impr (summarize argsort df) = mean (column df "Impr.")
    ∧ avg_installs (summarize argsort df) = mean (column df "Installs")
    ∧ avg_cost (summarize argsort df) = mean (column df "Cost")
    ∧ avg_ctr (summarize argsort df) = mean (column df "CTR")
    ∧ avg_cpi (summarize argsort df) = mean (column df "CPI")
    ∧ dist (summarize argsort df) = value_counts argsort (column df "Asset type").
Proof.
  intros Hne. do 2 eexists. split; [by apply view_dashboard|]. split.
  - rewrite view_dashboard; rewrite filter_sort_default; [reflexivity|].
    by eapply filter_sort_nonempty.
  - repeat split.
Qed.

End SummaryFacts.

Lemma summary_of_loaded_frame_witness :
  let c := mkControls [VStr "Text"] [VStr "Best"; VStr "Good"]
                      "None" "High to Low" None in
  rows (filter_sort stable_argsort loaded_sheet c) ≠ []
  ∧ ∃ p p0,
      view stable_argsort loaded_sheet c = Dashboard 2 (summarize stable_argsort loaded_sheet) p
      ∧ view stable_argsort loaded_sheet (default_controls loaded_sheet)
        = Dashboard 4 (summarize stable_argsort loaded_sheet) p0.
Proof.
  intros c.
  assert (Hne : rows (filter_sort stable_argsort loaded_sheet c) ≠ []).
  { vm_compute. discriminate. }
  split; [exact Hne|].
  destruct (summary_of_loaded_frame stable_argsort loaded_sheet c Hne) as (p & p0 & H1 & H2 & _).
  exists p, p0. split; [exact H1|exact H2].
Defined.

(** C6 as stated fails when the filters leave no row (M = 0 < N): the
    script stops before the summary, which is shown with every value
    selected. *)
Lemma no_summary_without_rows :
  let c := mkControls [VStr "Video"] [VStr "Good"] "None" "High to Low" None in
  length (rows (filter_sort stable_argsort loaded_sheet c)) = 0%nat
  ∧ length (rows loaded_sheet) = 4%nat
  ∧ view stable_argsort loaded_sheet c = NoData
  ∧ ∃ p0, view stable_argsort loaded_sheet (default_controls loaded_sheet)
          = Dashboard 4 (summarize stable_argsort loaded_sheet) p0.
Proof.
  intros c. split; [vm_compute; reflexivity|]. split; [vm_compute; reflexivity|].
  split; [vm_compute; reflexivity|].
  eexists. rewrite view_dashboard; rewrite filter_sort_default;
    [reflexivity | vm_compute; discriminate].
Qed.

(** ** Strings *)

Lemma append_cons c s t : String c s +:+ t = String c (s +:+ t).
Proof. reflexivity. Qed.

Lemma append_nil_r s : s +:+ "" = s.
Proof. induction s as [|c s IH]; [done|]. by rewrite append_cons, IH. Qed.

Lemma append_assoc s t u : (s +:+ t) +:+ u = s +:+ (t +:+ u).
Proof. induction s as [|c s IH]; [done|]. by rewrite !append_cons, IH. Qed.

Lemma prefix_empty s : String.prefix "" s = true.
Proof. by destruct s. Qed.

Lemma contains_char_cons c d s :
  Py.contains (String c "") (String d s)
  = Ascii.eqb c d || Py.contains (String c "") s.
Proof.
  simpl. rewrite prefix_empty.
  destruct (ascii_dec c d) as [->|Hne]; [by rewrite Ascii.eqb_refl|].
  by rewrite (proj2 (Ascii.eqb_neq c d) Hne).
Qed.

Lemma contains_char_append c s t :
  Py.contains (String c "") (s +:+ t)
  = Py.contains (String c "") s || Py.contains (String c "") t.
Proof.
  induction s as [|d s IH]; [done|].
  rewrite append_cons, !contains_char_cons, IH. apply orb_assoc.
Qed.

(** [s.startswith(p)] holds exactly when [s] is [p] followed by something. *)
Lemma startswith_spec s p :
  Py.startswith s p = true ↔ ∃ rest, s = p +:+ rest.
Proof.
  unfold Py.startswith. revert s. induction p as [|c p IH]; intros s.
  - rewrite prefix_empty. split; [by exists s|done].
  - destruct s as [|d s]; simpl.
    + split; [done|]. by intros [rest ?].
    + destruct (ascii_dec c d) as [->|Hne].
      * rewrite IH. split; intros [rest Hr]; exists rest.
        -- by rewrite append_cons, Hr.
        -- rewrite append_cons in Hr. congruence.
      * split; [done|]. intros [rest Hr]. rewrite append_cons in Hr. congruence.
Qed.

(** The last piece of a split: it has no separator, and it is the whole
    text or what follows its last separator. *)
Lemma last_split_go sep cur s :
  Py.contains (String sep "") cur = false →
  ∃ seg, last (Py.split_go sep cur s) = Some seg
         ∧ Py.contains (String sep "") seg = false
         ∧ (cur +:+ s = seg ∨ ∃ pre, cur +:+ s = pre +:+ String sep seg).
Proof.
  revert cur. induction s as [|c s IH]; intros cur Hcur; simpl.
  - exists cur. rewrite append_nil_r. auto.
  - destruct (Ascii.eqb_spec c sep) as [->|Hne].
    + destruct (IH "" eq_refl) as (seg & Hlast & Hseg & Hshape).
      exists seg. rewrite last_cons, Hlast. split; [done|]. split; [done|].
      right. destruct Hshape as [Heq|[pre Hpre]].
      * change (s = seg) in Heq. subst seg. by exists cur.
      * change (s = pre +:+ String sep seg) in Hpre.
        exists (cur +:+ String sep pre).
        by rewrite append_assoc, append_cons, Hpre.
    + destruct (IH (cur +:+ String c "")) as (seg & Hlast & Hseg & Hshape).
      { rewrite contains_char_append, Hcur, contains_char_cons. simpl.
        rewrite orb_false_r. apply Ascii.eqb_neq. congruence. }
      exists seg. split; [done|]. split; [done|].
      by rewrite append_assoc in Hshape.
Qed.

(** [url.split('/')[-1]] never fails, and is the text after the final
    slash, the whole URL when it has none. *)
Lemma last_segment_spec url :
  ∃ seg, last_segment url = Ok seg
         ∧ Py.contains "/" seg = false
         ∧ (url = seg ∨ ∃ pre, url = pre +:+ String "/" seg).
Proof.
  destruct (last_split_go "/" "" url eq_refl) as (seg & Hlast & Hseg & Hshape).
  exists seg. unfold last_segment, Py.last_item, Py.split. rewrite Hlast. auto.
Qed.

(** ** The two memoized helpers *)

Section CardFacts.

Variable network : nat → Request → outcome Response.
Variable prepare_url : string → bool.
Variable find_title : string → outcome (option string).
Variable repr_number : Q → string.

(** The undecorated title function sends one GET when requests accepts
    the URL, and returns what [title_of_answer] makes of the answer; a
    URL that requests refuses gives its last segment and sends nothing. *)
Lemma get_youtube_title_body_run url w :
  get_youtube_title_body network prepare_url find_title url w
  = if accepted prepare_url url
    then (title_of_answer find_title url (network (length (traffic w)) (GET url)),
          sent (GET url) w)
    else (last_segment url, w).
Proof.
  unfold get_youtube_title_body, try_except, mbind, M_bind, request, lift,
    title_of_answer, mret, M_ret. cbn [url_of].
  destruct (accepted prepare_url url); [|done].
  destruct (network _ _) as [res|e]; [|done].
  destruct (find_title (text res)) as [[t|]|e]; try done.
  by destruct (last_segment url).
Qed.

Lemma title_of_answer_total url answer :
  ∃ t, title_of_answer find_title url answer = Ok t.
Proof.
  destruct (last_segment_spec url) as (seg & Hseg & _).
  unfold title_of_answer. rewrite Hseg.
  destruct answer as [res|e]; [|by eauto].
  destruct (find_title (text res)) as [[t|]|e]; eauto.
Qed.

Lemma get_youtube_title_hit url w c :
  title_cache w !! url = Some c →
  get_youtube_title network prepare_url find_title url w = (Ok c, w).
Proof. intros H. unfold get_youtube_title, cache_data. by rewrite H. Qed.

Lemma get_youtube_title_miss url w :
  title_cache w !! url = None →
  ∃ t, (if accepted prepare_url url
        then title_of_answer find_title url
               (network (length (traffic w)) (GET url)) = Ok t
        else last_segment url = Ok t)
       ∧ get_youtube_title network prepare_url find_title url w
         = (Ok t, put_title url t
                    (if accepted prepare_url url then sent (GET url) w else w)).
Proof.
  intros H. unfold get_youtube_title, cache_data.
  rewrite H, get_youtube_title_body_run.
  destruct (accepted prepare_url url).
  - destruct (title_of_answer_total url (network (length (traffic w)) (GET url)))
      as [t Ht].
    exists t. by rewrite Ht.
  - destruct (last_segment_spec url) as (seg & Hseg & _).
    exists seg. by rewrite Hseg.
Qed.

Lemma is_image_url_body_run url w :
  is_image_url_body network prepare_url url w
  = if accepted prepare_url url
    then (Ok (image_of_answer (network (length (traffic w)) (HEAD url))),
          sent (HEAD url) w)
    else (Ok false, w).
Proof.
  unfold is_image_url_body, try_except, mbind, M_bind, request,
    image_of_answer, mret, M_ret. cbn [url_of].
  destruct (accepted prepare_url url); [|done]. by destruct (network _ _).
Qed.

Lemma is_image_url_hit url w b :
  image_cache w !! url = Some b → is_image_url network prepare_url url w = (Ok b, w).
Proof. intros H. unfold is_image_url, cache_data. by rewrite H. Qed.

Lemma is_image_url_miss url w :
  image_cache w !! url = None →
  let b := accepted prepare_url url
           && image_of_answer (network (length (traffic w)) (HEAD url)) in
  is_image_url network prepare_url url w
  = (Ok b, put_image url b (if accepted prepare_url url then sent (HEAD url) w else w)).
Proof.
  intros H b. subst b. unfold is_image_url, cache_data.
  rewrite H, is_image_url_body_run. by destruct (accepted prepare_url url).
Qed.

Lemma is_image_url_total url w :
  ∃ b w', is_image_url network prepare_url url w = (Ok b, w').
Proof.
  destruct (image_cache w !! url) as [b|] eqn:E.
  - rewrite (is_image_url_hit _ _ _ E). eauto.
  - rewrite (is_image_url_miss _ _ E). eauto.
Qed.

Lemma get_youtube_title_total url w :
  ∃ t w', get_youtube_title network prepare_url find_title url w = (Ok t, w').
Proof.
  destruct (title_cache w !! url) as [c|] eqn:E.
  - rewrite (get_youtube_title_hit _ _ _ E). eauto.
  - destruct (get_youtube_title_miss _ _ E) as (t & _ & ->). eauto.
Qed.

(** C5, as the code has it: [get_youtube_title] returns a string on every
    URL and in every world.  A cached title is returned as it is.
    Otherwise, for a URL that requests accepts, one GET is sent: when it
    is answered, with whatever status, by markup that has a title element,
    the result is that title with every occurrence of " - YouTube" removed
    and then stripped of surrounding blanks; when the request raises, the
    parser raises or there is no title element, the result is the last
    path segment, the text after the final slash.  A URL that requests
    refuses, as it does every URL without an http:// or https:// scheme,
    makes it raise before anything is sent, which gives the last path
    segment too. *)
Theorem get_youtube_title_resolves (url : string) (w : World) :
  ∃ t w', get_youtube_title network prepare_url find_title url w = (Ok t, w')
    ∧ (∀ c, title_cache w !! url = Some c → t = c ∧ w' = w)
    ∧ (title_cache w !! url = None →
       (accepted prepare_url url = true →
        traffic w' = GET url :: traffic w
        ∧ match network (length (traffic w)) (GET url) with
          | Ok res =>
              match find_title (text res) with
              | Ok (Some title) =>
                  t = Py.strip (Py.remove_all " - YouTube" title)
              | Ok None | Raise _ => last_segment url = Ok t
              end
          | Raise _ => last_segment url = Ok t
          end)
       ∧ (accepted prepare_url url = false →
          traffic w' = traffic w ∧ last_segment url = Ok t)
       ∧ (sendable url = false → accepted prepare_url url = false))
    ∧ ∃ seg, last_segment url = Ok seg
             ∧ Py.contains "/" seg = false
             ∧ (url = seg ∨ ∃ pre, url = pre +:+ String "/" seg).
Proof.
  destruct (title_cache w !! url) as [c|] eqn:E.
  - exists c, w. split; [by apply get_youtube_title_hit|].
    split; [by intros ? [= ->]|]. split; [done|]. apply last_segment_spec.
  - destruct (get_youtube_title_miss _ _ E) as (t & Ht & Hrun).
    eexists t, _. split; [exact Hrun|]. split; [done|].
    split; [|apply last_segment_spec].
    intros _. destruct (accepted prepare_url url) eqn:Es; rewrite ?Es in Ht.
    + split; [|split; [done|]].
      * intros _. split; [done|].
        unfold title_of_answer in Ht.
        destruct (network _ _) as [res|e]; [|done].
        destruct (find_title (text res)) as [[title|]|e]; congruence.
      * intros Hs. unfold accepted in Es. by rewrite Hs in Es.
    + split; [done|]. split; [by intros _|done].
Qed.

(** C8: a second call with the same URL, made in the world the first call
    left, returns the same string and leaves the world as it is, so sends
    nothing; the first call sent at most one GET for the URL. *)
Theorem title_fetched_once (url : string) (w : World) :
  ∃ t w1, get_youtube_title network prepare_url find_title url w = (Ok t, w1)
    ∧ get_youtube_title network prepare_url find_title url w1 = (Ok t, w1)
    ∧ (traffic w1 = traffic w ∨ traffic w1 = GET url :: traffic w)
    ∧ (fetches (GET url) w1 ≤ fetches (GET url) w + 1)%nat.
Proof.
  destruct (title_cache w !! url) as [c|] eqn:E.
  - exists c, w. rewrite (get_youtube_title_hit _ _ _ E).
    split; [done|]. split; [done|]. split; [by left|lia].
  - destruct (get_youtube_title_miss _ _ E) as (t & _ & Hrun).
    eexists t, _. split; [exact Hrun|]. split.
    + apply get_youtube_title_hit. simpl. apply lookup_insert_eq.
    + destruct (accepted prepare_url url).
      * split; [by right|]. unfold fetches; simpl.
        rewrite String.eqb_refl. simpl. lia.
      * split; [by left|]. unfold fetches; simpl. lia.
Qed.

(** ** The card loop *)

(** A text that is not taken for a link is shown as it is, with no
    request. *)
Lemma card_plain s w :
  Py.startswith s "http" = false →
  card network prepare_url find_title repr_number (VStr s) w
  = (Ok (mkCard false false (VStr s)), w).
Proof. intros H. unfold card; simpl. by rewrite H. Qed.

Lemma card_video s w :
  Py.startswith s "http"
  && (Py.contains "youtube.com" s || Py.contains "youtu.be" s) = true →
  ∃ t w', get_youtube_title network prepare_url find_title s w = (Ok t, w')
          ∧ card network prepare_url find_title repr_number (VStr s) w
            = (Ok (mkCard true false (VStr t)), w').
Proof.
  intros H. destruct (get_youtube_title_total s w) as (t & w' & Ht).
  exists t, w'. split; [done|].
  unfold card; cbn [py_str]. rewrite H, andb_false_r.
  unfold mbind, M_bind, mret, M_ret. by rewrite Ht.
Qed.

Lemma card_probed s w :
  Py.startswith s "http" = true →
  Py.contains "youtube.com" s || Py.contains "youtu.be" s = false →
  ∃ b w', is_image_url network prepare_url s w = (Ok b, w')
          ∧ card network prepare_url find_title repr_number (VStr s) w
            = (Ok (mkCard false b (if b then VStr "" else VStr s)), w').
Proof.
  intros Hh Hm. destruct (is_image_url_total s w) as (b & w' & Hb).
  exists b, w'. split; [done|].
  unfold card; cbn [py_str]. rewrite Hh, Hm. simpl.
  unfold mbind, M_bind, mret, M_ret. rewrite Hb. by destruct b.
Qed.

Lemma image_of_answer_true (answer : outcome Response) :
  image_of_answer answer = true
  ↔ ∃ res ct, answer = Ok res ∧ content_type res = Some ct
              ∧ Py.contains "image" ct = true.
Proof.
  unfold image_of_answer. destruct answer as [res|e].
  - destruct (content_type res) as [ct|] eqn:Ect; simpl.
    + split; [by exists res, ct|].
      intros (res0 & ct0 & Hres & Hct & Him). injection Hres as <-.
      rewrite Ect in Hct. by injection Hct as ->.
    + split; [done|].
      intros (res0 & ct0 & Hres & Hct & _). injection Hres as <-.
      by rewrite Ect in Hct.
  - split; [done|]. by intros (res0 & ct0 & Hres & _).
Qed.

(** When the probe of an uncached URL says yes. *)
Lemma image_verdict url w :
  accepted prepare_url url
  && image_of_answer (network (length (traffic w)) (HEAD url)) = true
  ↔ sendable url = true ∧ prepare_url url = true
    ∧ ∃ res ct, network (length (traffic w)) (HEAD url) = Ok res
                ∧ content_type res = Some ct
                ∧ Py.contains "image" ct = true.
Proof.
  unfold accepted. rewrite !andb_true_iff, image_of_answer_true. split.
  - intros [[Hs Hp] Hi]. split; [exact Hs|]. split; [exact Hp|exact Hi].
  - intros (Hs & Hp & Hi). split; [|exact Hi]. split; [exact Hs|exact Hp].
Qed.

(** C4, as the code has it: the card of a text cell is decided in order.
    A text that starts with the characters "http" and contains
    "youtube.com" or "youtu.be" is a Video, with the title that
    [get_youtube_title] returns.  Otherwise a text that starts with "http"
    and for which the probe says yes is an Image with the empty title: the
    probe is the cached verdict for the text or, with none cached, says
    yes exactly when the text has an http:// or https:// scheme, requests
    finds nothing else wrong with it, and the HEAD is answered with a
    Content-Type that contains "image".  Every other text is a Text
    shown verbatim.  So "https://youtu.be/abc123" is a Video, "Banner
    text" is a Text with itself as title, and
    "https://example.com/pic.jpg" is an Image when requests accepts it
    and its HEAD is answered with an image Content-Type. *)
Theorem card_first_match (s : string) (w : World) :
  let http := Py.startswith s "http" in
  let marker := Py.contains "youtube.com" s || Py.contains "youtu.be" s in
  (∃ c w' probe,
    card network prepare_url find_title repr_number (VStr s) w = (Ok c, w')
    ∧ fst (is_image_url network prepare_url s w) = Ok probe
    ∧ (∀ b, image_cache w !! s = Some b → probe = b)
    ∧ (image_cache w !! s = None →
       (probe = true ↔
        sendable s = true ∧ prepare_url s = true
        ∧ ∃ res ct, network (length (traffic w)) (HEAD s) = Ok res
                    ∧ content_type res = Some ct
                    ∧ Py.contains "image" ct = true))
    ∧ kind c = (if http && marker then Video
                else if http && probe then Image
                else Text)
    ∧ (kind c = Video →
       ∃ t, fst (get_youtube_title network prepare_url find_title s w) = Ok t
            ∧ display_title c = VStr t)
    ∧ (kind c = Image → display_title c = VStr "")
    ∧ (kind c = Text → display_title c = VStr s))
  ∧ (∃ c w', card network prepare_url find_title repr_number
                  (VStr "https://youtu.be/abc123") w = (Ok c, w')
             ∧ kind c = Video)
  ∧ card network prepare_url find_title repr_number (VStr "Banner text") w
    = (Ok (mkCard false false (VStr "Banner text")), w)
  ∧ (image_cache w !! "https://example.com/pic.jpg" = None →
     prepare_url "https://example.com/pic.jpg" = true →
     ∀ res ct,
       network (length (traffic w)) (HEAD "https://example.com/pic.jpg")
       = Ok res →
       content_type res = Some ct → Py.contains "image" ct = true →
       ∃ w', card network prepare_url find_title repr_number
                  (VStr "https://example.com/pic.jpg") w
             = (Ok (mkCard false true (VStr "")), w')
             ∧ traffic w' = HEAD "https://example.com/pic.jpg" :: traffic w).
Proof.
  intros http marker. split; [|split; [|split]].
  - assert (Hprobe : ∃ b0 w0, is_image_url network prepare_url s w = (Ok b0, w0)
      ∧ (∀ b, image_cache w !! s = Some b → b0 = b)
      ∧ (image_cache w !! s = None →
         (b0 = true ↔
          sendable s = true ∧ prepare_url s = true
          ∧ ∃ res ct, network (length (traffic w)) (HEAD s) = Ok res
                      ∧ content_type res = Some ct
                      ∧ Py.contains "image" ct = true))).
    { destruct (image_cache w !! s) as [b|] eqn:E.
      - exists b, w. split; [by apply is_image_url_hit|].
        split; [by intros ? [= ->]|done].
      - do 2 eexists. split; [by apply is_image_url_miss|].
        split; [done|]. intros _. apply image_verdict. }
    destruct Hprobe as (b0 & w0 & Hb0 & Hhit & Hmiss).
    destruct (http && marker) eqn:Hyt.
    + destruct (card_video s w Hyt) as (t & w' & Ht & Hc).
      exists (mkCard true false (VStr t)), w', b0. rewrite Hc, Hb0, Ht.
      split; [done|]. split; [done|]. split; [done|]. split; [done|].
      split; [done|]. split; [by exists t|]. by split.
    + destruct http eqn:Hh; simpl in Hyt.
      * destruct (card_probed s w Hh Hyt) as (b & w' & Hb & Hc).
        rewrite Hb in Hb0. injection Hb0 as -> ->.
        exists (mkCard false b0 (if b0 then VStr "" else VStr s)), w0, b0.
        rewrite Hc, Hb. split; [done|]. split; [done|]. split; [done|].
        split; [done|]. unfold kind; simpl. by destruct b0.
      * exists (mkCard false false (VStr s)), w, b0.
        rewrite (card_plain s w Hh), Hb0. unfold kind; simpl.
        split; [done|]. split; [done|]. split; [done|]. split; [done|].
        split; [done|]. by repeat split.
  - destruct (card_video "https://youtu.be/abc123" w eq_refl)
      as (t & w' & _ & Hc).
    by exists (mkCard true false (VStr t)), w'.
  - by apply card_plain.
  - intros Hmiss Hprep res ct Hres Hct Him.
    destruct (card_probed "https://example.com/pic.jpg" w eq_refl eq_refl)
      as (b & w' & Hb & Hc).
    rewrite (is_image_url_miss _ _ Hmiss) in Hb.
    unfold image_of_answer in Hb. rewrite Hres, Hct in Hb. simpl in Hb.
    rewrite Him in Hb. unfold accepted in Hb. rewrite Hprep in Hb.
    change (sendable "https://example.com/pic.jpg") with true in Hb.
    cbn [andb] in Hb.
    injection Hb as <- <-. by eexists.
Qed.

(** C10, as the code has it: the link test is the four-character prefix
    "http" and nothing more: a text passes it exactly when it is "http"
    followed by anything, and a text that fails it is shown verbatim with
    no probe at all.  A text that passes it and has no video marker goes
    to [is_image_url]: a cached verdict decides and nothing is sent; with
    none cached, a URL with an http:// or https:// scheme with which
    requests finds nothing else wrong gets one HEAD and the card is an
    Image or a Text as the answer says, and any other text, such as
    "httpbanner", is a Text with nothing sent.  The verdict is cached in
    both cases. *)
Theorem card_http_prefix_probed (rest : string) (w : World) :
  let s := "http" +:+ rest in
  Py.contains "youtube.com" s || Py.contains "youtu.be" s = false →
  Py.startswith s "http" = true
  ∧ (∀ t, Py.startswith t "http" = true ↔ ∃ r, t = "http" +:+ r)
  ∧ (∀ t w0, Py.startswith t "http" = false →
       card network prepare_url find_title repr_number (VStr t) w0
       = (Ok (mkCard false false (VStr t)), w0))
  ∧ ∃ c w', card network prepare_url find_title repr_number (VStr s) w = (Ok c, w')
    ∧ match (image_cache w !! s : option bool) with
      | Some b =>
          w' = w
          ∧ kind c = (if b then Image else Text)
          ∧ display_title c = (if b then VStr "" else VStr s)
      | None =>
          image_cache w' !! s = Some (is_img c)
          ∧ if sendable s && prepare_url s
            then
              let b := image_of_answer (network (length (traffic w)) (HEAD s)) in
              traffic w' = HEAD s :: traffic w
              ∧ kind c = (if b then Image else Text)
              ∧ display_title c = (if b then VStr "" else VStr s)
            else
              traffic w' = traffic w
              ∧ kind c = Text
              ∧ display_title c = VStr s
      end.
Proof.
  intros s Hm.
  assert (Hh : Py.startswith s "http" = true).
  { apply startswith_spec. by exists rest. }
  split; [done|]. split; [intros t; apply startswith_spec|].
  split; [intros t w0; apply card_plain|].
  destruct (card_probed s w Hh Hm) as (b & w' & Hb & Hc).
  exists (mkCard false b (if b then VStr "" else VStr s)), w'.
  split; [done|]. destruct (image_cache w !! s) as [b0|] eqn:E.
  - rewrite (is_image_url_hit _ _ _ E) in Hb. injection Hb as -> ->.
    by destruct b.
  - rewrite (is_image_url_miss _ _ E) in Hb. injection Hb as <- <-.
    split; [apply lookup_insert_eq|].
    change (sendable s && prepare_url s) with (accepted prepare_url s).
    destruct (accepted prepare_url s); cbn [andb]; [|done].
    split; [done|]. by destruct (image_of_answer _).
Qed.

End CardFacts.

Lemma card_first_match_witness :
  ∃ w', card image_host accepts_all title_between_tags repr_whole
             (VStr "https://example.com/pic.jpg") fresh
        = (Ok (mkCard false true (VStr "")), w')
        ∧ traffic w' = [HEAD "https://example.com/pic.jpg"].
Proof.
  destruct (card_first_match image_host accepts_all title_between_tags repr_whole
              "https://example.com/pic.jpg" fresh) as (_ & _ & _ & Hpic).
  exact (Hpic eq_refl eq_refl (mkResponse 200 "" (Some "image/jpeg"))
              "image/jpeg" eq_refl eq_refl eq_refl).
Defined.

(** C4 as stated fails on a text that starts with "http" without being an
    HTTP(S) URL: "httpyoutu.be/abc" has no scheme and is a Video all the
    same, with its last segment as title and nothing sent, where the claim
    makes it a Text shown verbatim. *)
Lemma video_without_scheme :
  http_scheme "httpyoutu.be/abc" = false
  ∧ ∃ c w', card image_host accepts_all title_between_tags repr_whole
                 (VStr "httpyoutu.be/abc") fresh = (Ok c, w')
            ∧ kind c = Video
            ∧ display_title c = VStr "abc"
            ∧ display_title c ≠ VStr "httpyoutu.be/abc"
            ∧ traffic w' = [].
Proof.
  split; [reflexivity|]. do 2 eexists. split; [vm_compute; reflexivity|].
  split; [reflexivity|]. split; [reflexivity|]. split; [discriminate|].
  reflexivity.
Qed.

Lemma card_http_prefix_probed_witness :
  Py.contains "youtube.com" "http://example.com/banner"
  || Py.contains "youtu.be" "http://example.com/banner" = false
  ∧ (∃ c w', card image_host accepts_all title_between_tags repr_whole
                  (VStr "http://example.com/banner") fresh = (Ok c, w')
             ∧ traffic w' = [HEAD "http://example.com/banner"]
             ∧ kind c = Image)
  ∧ (∃ c w', card image_host accepts_all title_between_tags repr_whole
                  (VStr "httpbanner") fresh = (Ok c, w')
             ∧ traffic w' = [] ∧ kind c = Text
             ∧ display_title c = VStr "httpbanner").
Proof.
  split; [reflexivity|]. split.
  - destruct (card_http_prefix_probed image_host accepts_all title_between_tags repr_whole
                "://example.com/banner" fresh eq_refl)
      as (_ & _ & _ & c & w' & Hc & _ & Ht & Hk & _).
    exists c, w'. split; [exact Hc|]. split; [exact Ht|exact Hk].
  - destruct (card_http_prefix_probed image_host accepts_all title_between_tags repr_whole
                "banner" fresh eq_refl)
      as (_ & _ & _ & c & w' & Hc & _ & Ht & Hk & Hd).
    exists c, w'. split; [exact Hc|]. split; [exact Ht|].
    split; [exact Hk|exact Hd].
Defined.

(** C10 as stated fails on the very texts it names: "httpbanner" is handed
    to [is_image_url], but requests raises for want of a scheme before
    anything is sent, so the card is a Text whatever the network would
    have answered, here one that calls every URL a JPEG. *)
Lemma httpbanner_not_probed :
  Py.startswith "httpbanner" "http" = true
  ∧ sendable "httpbanner" = false
  ∧ image_of_answer (image_host 0 (HEAD "httpbanner")) = true
  ∧ ∃ w', card image_host accepts_all title_between_tags repr_whole
               (VStr "httpbanner") fresh
          = (Ok (mkCard false false (VStr "httpbanner")), w')
          ∧ traffic w' = []
          ∧ image_cache w' !! "httpbanner" = Some false.
Proof.
  split; [reflexivity|]. split; [reflexivity|]. split; [reflexivity|].
  eexists. split; [vm_compute; reflexivity|]. split; reflexivity.
Qed.

(** A refused fetch for "https://youtu.be/xyz" gives "xyz". *)
Example refused_title_is_last_segment :
  fst (get_youtube_title refusing accepts_all title_between_tags "https://youtu.be/xyz" fresh)
  = Ok "xyz".
Proof. vm_compute. reflexivity. Qed.

(** Without the cache the second answer would differ: on a network that
    answers once and then refuses, both calls return the first title. *)
Example title_cached_on_changing_network :
  let url := "https://youtu.be/xyz" in
  let '(t1, w1) := get_youtube_title changing accepts_all title_between_tags url fresh in
  let '(t2, w2) := get_youtube_title changing accepts_all title_between_tags url w1 in
  t1 = Ok "First" ∧ t2 = Ok "First" ∧ traffic w2 = [GET url]
  ∧ fst (get_youtube_title_body changing accepts_all title_between_tags url w1) = Ok "xyz".
Proof. vm_compute. repeat split; reflexivity. Qed.

(** C5 as stated fails twice.  A 404 answer whose page has a title gives
    that title, not the last path segment; and " - YouTube" is removed
    wherever it occurs, not only at the end. *)
Lemma title_of_error_page_and_inner_suffix :
  let url := "https://youtu.be/xyz" in
  (status_code <$> match not_found 0 (GET url) with
                   | Ok res => Some res
                   | Raise _ => None
                   end) = Some 404%Z
  ∧ fst (get_youtube_title not_found accepts_all title_between_tags url fresh)
    = Ok "Not Found"
  ∧ last_segment url = Ok "xyz"
  ∧ fst (get_youtube_title video_host accepts_all title_between_tags url fresh)
    = Ok "Why won"
  ∧ strip_trailing_suffix " - YouTube" "Why - YouTube won - YouTube"
    = "Why - YouTube won".
Proof. vm_compute. repeat split; reflexivity. Qed.

(** * Further properties *)

(** ** load_data: failure and frame *)

(** Once the sheet is read, the only failure left is the KeyError of
    [dropna] for a metric column that the sheet does not have. *)
Lemma load_data_key_error (parse_number : string → option Q)
    (df : DataFrame) :
  match load_data parse_number df with
  | Ok _ => ∀ c, c ∈ required_columns → c ∈ columns df
  | Raise e => ∃ c, e = KeyError c ∧ c ∈ required_columns ∧ c ∉ columns df
  end.
Proof.
  destruct (load_data parse_number df) as [df'|e] eqn:E.
  - by apply load_data_inv in E as [Hall _].
  - unfold load_data, dropna in E.
    destruct (List.find _ required_columns) as [c|] eqn:F; [|done].
    injection E as <-. apply find_some in F as [Hin Hneg].
    exists c. split; [done|]. split; [by apply list_elem_of_In|].
    intros Hc. rewrite <- (columns_coerce_columns parse_number) in Hc.
    apply has_column_true in Hc. by rewrite Hc in Hneg.
Qed.

(** X1: [load_data] fails in two ways.  When [pd.read_excel] cannot read
    videos.xlsx its exception is the exception of [load_data]; when the
    sheet is read, [load_data] fails exactly with the KeyError of [dropna]
    for a metric column that the sheet does not have.  It returns a frame
    exactly when the sheet is read and has the five metric columns. *)
Theorem load_data_failures (parse_number : string → option Q)
    (videos_xlsx : outcome DataFrame) :
  match load_data_file parse_number videos_xlsx with
  | Ok df' =>
      ∃ df, videos_xlsx = Ok df
            ∧ load_data parse_number df = Ok df'
            ∧ ∀ c, c ∈ required_columns → c ∈ columns df
  | Raise e =>
      videos_xlsx = Raise e
      ∨ ∃ df c, videos_xlsx = Ok df ∧ e = KeyError c
                ∧ c ∈ required_columns ∧ c ∉ columns df
  end.
Proof.
  destruct videos_xlsx as [df|e]; simpl; [|by left].
  pose proof (load_data_key_error parse_number df) as H.
  destruct (load_data parse_number df) as [df'|e] eqn:E.
  - exists df. split; [reflexivity|]. split; [exact E|exact H].
  - destruct H as (c & -> & Hc & Hn). right. exists df, c.
    split; [reflexivity|]. split; [reflexivity|]. by split.
Qed.

(** A file that cannot be read, and a sheet without its Cost column. *)
Example load_data_fails_both_ways :
  load_data_file read_integer (Raise FileNotFoundError)
  = Raise FileNotFoundError
  ∧ load_data_file read_integer
      (Ok (mkDF (List.filter (λ c, negb (String.eqb c "Cost")) (columns sheet))
                (rows sheet)))
    = Raise (KeyError "Cost").
Proof. split; vm_compute; reflexivity. Qed.

Lemma Forall2_map_same {A B} (f : A → B) (P : A → B → Prop) (l : list A) :
  (∀ a, P a (f a)) → Forall2 P l (map f l).
Proof. intros H. induction l as [|a l IH]; simpl; by constructor. Qed.

Lemma sublist_filter {A} (P : A → bool) (l : list A) :
  sublist (List.filter P l) l.
Proof.
  induction l as [|a l IH]; simpl; [constructor|].
  destruct (P a); by constructor.
Qed.

(** X2: the rows that [load_data] returns are rows of the sheet, in the
    order of the sheet and under their labels.  In each of them the cells
    of the metric columns that the sheet has are what [pd.to_numeric]
    makes of the sheet's cells, and every other cell but the CPI is the
    sheet's. *)
Theorem load_data_rows_kept (parse_number : string → option Q)
    (df df' : DataFrame) :
  load_data parse_number df = Ok df' →
  ∃ kept, sublist kept (rows df)
    ∧ Forall2 (λ r r',
        label r' = label r
        ∧ (∀ c, c ∈ numeric_columns → c ∈ columns df →
                cell r' c = to_numeric parse_number (cell r c))
        ∧ (∀ c, c ≠ "CPI" → ¬ (c ∈ numeric_columns ∧ c ∈ columns df) →
                cell r' c = cell r c))
      kept (rows df').
Proof.
  intros Hload. apply load_data_inv in Hload as [Hall Hrows].
  exists (List.filter (survives parse_number df) (rows df)).
  split; [apply sublist_filter|]. rewrite Hrows.
  apply Forall2_map_same. intros r. unfold loaded_row.
  split; [apply label_coerce_row|]. split.
  - intros c Hnum Hc. rewrite cell_set_cell_ne.
    + rewrite cell_coerce_row by apply NoDup_numeric_columns.
      rewrite bool_decide_eq_true_2 by done.
      by rewrite (proj2 (has_column_true df c) Hc).
    + intros <-. unfold numeric_columns in Hnum. set_solver.
  - intros c Hcpi Hnot. rewrite cell_set_cell_ne by done.
    rewrite cell_coerce_row by apply NoDup_numeric_columns.
    destruct (bool_decide (c ∈ numeric_columns)) eqn:E1; [|done].
    destruct (has_column df c) eqn:E2; [|done].
    exfalso. apply Hnot. split.
    + by apply bool_decide_eq_true in E1.
    + by apply has_column_true.
Qed.

Lemma load_data_rows_kept_witness :
  load_data read_integer sheet = Ok loaded_sheet
  ∧ ∃ kept, sublist kept (rows sheet)
    ∧ Forall2 (λ r r',
        label r' = label r
        ∧ (∀ c, c ∈ numeric_columns → c ∈ columns sheet →
                cell r' c = to_numeric read_integer (cell r c))
        ∧ (∀ c, c ≠ "CPI" → ¬ (c ∈ numeric_columns ∧ c ∈ columns sheet) →
                cell r' c = cell r c))
      kept (rows loaded_sheet).
Proof.
  assert (H : load_data read_integer sheet = Ok loaded_sheet)
    by (vm_compute; reflexivity).
  split; [exact H|]. exact (load_data_rows_kept read_integer sheet loaded_sheet H).
Defined.

(** ** The filters and the sort *)

Lemma filter_filter_same {A} (P : A → bool) (l : list A) :
  List.filter P (List.filter P l) = List.filter P l.
Proof.
  induction l as [|a l IH]; [done|]. simpl.
  destruct (P a) eqn:E; simpl; [rewrite E|]; by rewrite ?IH.
Qed.

(** X3: the filter of line 89 keeps exactly the rows whose asset type and
    performance are both selected, in the order of the frame, and
    filtering again with the same selection changes nothing. *)
Theorem filter_frame_idempotent (sel_assets sel_perf : list value)
    (df : DataFrame) :
  let kept := filter_frame sel_assets sel_perf df in
  filter_frame sel_assets sel_perf kept = kept
  ∧ sublist (rows kept) (rows df)
  ∧ ∀ r, r ∈ rows kept ↔
         r ∈ rows df
         ∧ isin sel_assets (cell r "Asset type") = true
         ∧ isin sel_perf (cell r "Performance") = true.
Proof.
  intros kept. subst kept. unfold filter_frame; cbn [rows columns].
  split; [by rewrite filter_filter_same|]. split; [apply sublist_filter|].
  intros r. rewrite !list_elem_of_In, filter_In, andb_true_iff. tauto.
Qed.

(** X4: with nothing selected in one of the two multiselects the script
    shows the warning and stops, whatever the sort options and the
    kernel. *)
Theorem view_empty_selection (argsort : list Q → list nat)
    (df : DataFrame) (c : Controls) :
  selected_assets c = [] ∨ selected_perf c = [] →
  view argsort df c = NoData.
Proof.
  intros Hsel. apply view_no_data.
  assert (Hf : rows (filter_frame (selected_assets c) (selected_perf c) df) = []).
  { unfold filter_frame; cbn [rows].
    induction (rows df) as [|r l IH]; [done|]. cbn [List.filter].
    rewrite IH. destruct Hsel as [-> | ->]; cbn [isin existsb]; [done|].
    by rewrite andb_false_r. }
  unfold filter_sort. destruct (negb _); [|done].
  unfold sort_values; cbn [rows]. rewrite Hf.
  destruct (String.eqb _ _); simpl; by rewrite take_at_nil.
Qed.

Lemma view_empty_selection_witness :
  view stable_argsort loaded_sheet
       (mkControls [VStr "Text"] [] "CPI" "Low to High" (Some 2%Z)) = NoData.
Proof.
  apply (view_empty_selection stable_argsort loaded_sheet). right. reflexivity.
Defined.

Lemma filter_split_perm {A} (P : A → bool) (l : list A) :
  List.filter P l ++ List.filter (λ a, negb (P a)) l ≡ₚ l.
Proof.
  induction l as [|a l IH]; [done|]. simpl. destruct (P a); simpl.
  - by constructor.
  - rewrite <- Permutation_middle. by constructor.
Qed.


Lemma sort_values_perm argsort by_ asc df :
  (∀ ks, argsort ks ≡ₚ seq 0 (length ks)) →
  rows (sort_values argsort by_ asc df) ≡ₚ rows df.
Proof.
  intros Hperm. unfold sort_values; cbn [rows].
  rewrite (nargsort_perm argsort _ Hperm). apply filter_split_perm.
Qed.



(** X6: sorting changes the order of the selection and nothing else: the
    rows shown are the filtered rows, each once, so the count in the
    header does not depend on the sort field or direction; and with
    "None" the filtered order is kept as it is. *)
Theorem filter_sort_keeps_selection (argsort : list Q → list nat)
    (df : DataFrame) (c : Controls) :
  (∀ ks, argsort ks ≡ₚ seq 0 (length ks)) →
  let selection := filter_frame (selected_assets c) (selected_perf c) df in
  rows (filter_sort argsort df c) ≡ₚ rows selection
  ∧ length (rows (filter_sort argsort df c)) = length (rows selection)
  ∧ (sort_by c = "None" → filter_sort argsort df c = selection).
Proof.
  intros Hperm selection.
  assert (Hp : rows (filter_sort argsort df c) ≡ₚ rows selection).
  { unfold filter_sort. fold selection. destruct (negb _); [|done].
    by apply sort_values_perm. }
  split; [done|]. split; [by rewrite Hp|].
  intros Hnone. unfold filter_sort. by rewrite Hnone.
Qed.

Lemma filter_sort_keeps_selection_witness :
  let c := mkControls [VStr "Text"; VStr "Video"] [VStr "Best"; VStr "Good"]
                      "CPI" "High to Low" None in
  length (rows (filter_sort stable_argsort loaded_sheet c)) = 3%nat
  ∧ length (rows (filter_sort stable_argsort loaded_sheet c))
    = length (rows (filter_frame (selected_assets c) (selected_perf c)
                                 loaded_sheet)).
Proof.
  intros c. split; [vm_compute; reflexivity|].
  apply (filter_sort_keeps_selection stable_argsort loaded_sheet c
           stable_argsort_perm).
Defined.

(** ** Pages, footer and grid *)

Lemma iloc_window {A} (l : list A) (start k : Z) :
  (0 ≤ start ≤ Z.of_nat (length l))%Z → (0 ≤ k)%Z →
  iloc start (start + k) l = take (Z.to_nat k) (drop (Z.to_nat start) l).
Proof.
  intros Hs Hk. unfold iloc, slice_bound.
  destruct (start <? 0)%Z eqn:E1; [lia|].
  destruct (start + k <? 0)%Z eqn:E2; [lia|].
  rewrite (Z.min_l start) by lia.
  destruct (decide (start + k ≤ Z.of_nat (length l))%Z) as [Hle|Hgt].
  - rewrite Z.min_l by lia. f_equal. lia.
  - rewrite Z.min_r by lia.
    rewrite !take_ge; [done| |]; rewrite length_drop; lia.
Qed.

(** Where a page starts, whatever was typed. *)
Lemma paginate_start df typed :
  let n := Z.of_nat (length (rows df)) in
  let p := paginate df typed in
  pages p = ceil_div n 10
  ∧ (1 ≤ page p)%Z ∧ (page p ≤ Z.max 1 (pages p))%Z
  ∧ start p = ((page p - 1) * 10)%Z
  ∧ (0 ≤ start p ≤ n)%Z
  ∧ subset p = take 10 (drop (Z.to_nat (start p)) (rows df)).
Proof.
  intros n p.
  pose proof (ceil_div_spec n 10 ltac:(lia)) as Hc.
  assert (Hpages : pages p = ceil_div n 10) by reflexivity.
  assert (Hpage : (1 ≤ page p)%Z ∧ (page p ≤ Z.max 1 (pages p))%Z).
  { rewrite Hpages. subst p. unfold paginate; cbn [page]. fold n.
    unfold per_page, number_input.
    destruct (Z.gtb_spec (ceil_div n 10) 1) as [E|E]; [|lia].
    destruct typed as [v|]; [|lia].
    destruct (Z.leb_spec 1 v), (Z.leb_spec v (ceil_div n 10)); simpl; lia. }
  assert (Hstart : start p = ((page p - 1) * 10)%Z) by reflexivity.
  assert (Hin : (0 ≤ start p ≤ n)%Z).
  { rewrite Hstart. rewrite Hpages in Hpage. subst n. lia. }
  split; [done|]. split; [tauto|]. split; [tauto|]. split; [done|].
  split; [done|].
  change (subset p) with (iloc (start p) (start p + per_page) (rows df)).
  unfold per_page. by rewrite iloc_window by (fold n; lia).
Qed.

(** X7: every page holds at most ten rows, and ten unless it is the last
    one; the footer, shown when there are several pages, names a range
    that starts after the rows of the earlier pages and counts exactly
    the rows of the page. *)
Theorem page_size_and_footer (df_filtered : DataFrame) (typed : option Z) :
  let total := Z.of_nat (length (rows df_filtered)) in
  let p := paginate df_filtered typed in
  (length (subset p) ≤ 10)%nat
  ∧ ((page p < pages p)%Z → length (subset p) = 10%nat)
  ∧ (footer total p = None ↔ (total ≤ 10)%Z)
  ∧ ∀ lo hi t, footer total p = Some (lo, hi, t) →
      t = total ∧ lo = ((page p - 1) * 10 + 1)%Z
      ∧ (1 ≤ lo ≤ hi)%Z ∧ (hi ≤ total)%Z
      ∧ (hi - lo + 1)%Z = Z.of_nat (length (subset p)).
Proof.
  intros total p.
  destruct (paginate_start df_filtered typed)
    as (Hpages & Hp1 & Hp2 & Hstart & Hin & Hsub).
  fold p in Hpages, Hp1, Hp2, Hstart, Hin, Hsub. fold total in Hpages, Hin.
  pose proof (ceil_div_spec total 10 ltac:(lia)) as Hc.
  rewrite <- Hpages in Hc.
  assert (Hlen : Z.of_nat (length (subset p))
                 = (Z.min (start p + 10) total - start p)%Z).
  { rewrite Hsub, length_take, length_drop. subst total. lia. }
  split; [lia|]. split; [lia|]. unfold footer, per_page. split.
  - destruct (Z.gtb_spec (pages p) 1) as [E|E]; split; try done; lia.
  - intros lo hi t. destruct (Z.gtb_spec (pages p) 1) as [E|E]; [|done].
    intros H.
    assert (lo = (start p + 1)%Z ∧ hi = Z.min (start p + 10) total ∧ t = total)
      as (-> & -> & ->) by (repeat split; congruence).
    lia.
Qed.

Lemma concat_windows {A} (k n : nat) (l : list A) :
  (length l ≤ k * n)%nat →
  concat (map (λ i : nat, take k (drop (k * i) l)) (seq 0 n)) = l.
Proof.
  revert l. induction n as [|n IH]; intros l Hl.
  - destruct l; [done|simpl in Hl; lia].
  - rewrite <- cons_seq, <- fmap_S_seq. cbn [map concat].
    rewrite Nat.mul_0_r, drop_0.
    change (map ?f (S <$> ?x)) with (map f (map S x)). rewrite map_map.
    transitivity (take k l ++ drop k l); [|apply take_drop]. f_equal.
    etransitivity; [|apply (IH (drop k l)); rewrite length_drop; lia].
    f_equal. apply map_ext. intros i. rewrite drop_drop. do 2 f_equal. lia.
Qed.

(** X8: the pages tile the filtered rows: put one after the other, the
    pages 1 to [pages] give back the rows, each once and in order. *)
Theorem pages_tile_rows (df_filtered : DataFrame) :
  let n := Z.to_nat (pages (paginate df_filtered None)) in
  concat (map (λ i : nat,
                 subset (paginate df_filtered (Some (Z.of_nat i))))
              (seq 1 n))
  = rows df_filtered.
Proof.
  intros n. set (total := Z.of_nat (length (rows df_filtered))).
  pose proof (ceil_div_spec total 10 ltac:(lia)) as Hc.
  assert (HP : pages (paginate df_filtered None) = ceil_div total 10)
    by reflexivity.
  etransitivity;
    [|apply (concat_windows 10 n (rows df_filtered)); subst n total; lia].
  f_equal. rewrite <- fmap_S_seq.
  change (map ?f (S <$> ?x)) with (map f (map S x)). rewrite map_map.
  apply map_ext_in. intros i Hi. apply in_seq in Hi.
  destruct (paginate_start df_filtered (Some (Z.of_nat (S i))))
    as (Hpages & _ & _ & Hstart & _ & Hsub).
  fold total in Hpages. rewrite Hsub, Hstart. do 2 f_equal.
  assert (page (paginate df_filtered (Some (Z.of_nat (S i))))
          = Z.of_nat (S i)) as ->.
  { unfold paginate; cbn [page]. fold total. unfold per_page, number_input.
    destruct (Z.gtb_spec (ceil_div total 10) 1) as [E|E]; [|subst n; lia].
    destruct (Z.leb_spec 1 (Z.of_nat (S i))),
      (Z.leb_spec (Z.of_nat (S i)) (ceil_div total 10));
      simpl; subst n; lia. }
  lia.
Qed.

Lemma range_go_windows {A} (l : list A) (fuel start : nat) :
  (start ≤ length l)%nat → (length l - start ≤ fuel)%nat →
  concat (map (λ s : nat, take 5 (drop s l)) (range_go fuel start (length l) 5))
  = drop start l
  ∧ Forall (λ s, (s < length l)%nat) (range_go fuel start (length l) 5).
Proof.
  revert start. induction fuel as [|fuel IH]; intros start Hs Hf; simpl.
  - split; [|constructor]. rewrite drop_ge; [done|lia].
  - destruct (start <? length l)%nat eqn:E.
    + apply Nat.ltb_lt in E. cbn [map concat].
      destruct (decide (start + 5 ≤ length l)%nat) as [Hle|Hgt].
      * destruct (IH (start + 5)%nat) as [IH1 IH2]; [lia..|].
        rewrite IH1. split; [|by constructor].
        rewrite <- drop_drop. apply take_drop.
      * split.
        -- assert (range_go fuel (start + 5) (length l) 5 = []) as ->.
           { destruct fuel; [done|]. simpl.
             by rewrite (proj2 (Nat.ltb_ge _ _)) by lia. }
           simpl. rewrite app_nil_r. apply take_ge. rewrite length_drop. lia.
        -- constructor; [done|].
           assert (range_go fuel (start + 5) (length l) 5 = []) as ->; [|done].
           destruct fuel; [done|]. simpl.
           by rewrite (proj2 (Nat.ltb_ge _ _)) by lia.
    + apply Nat.ltb_ge in E. split; [|constructor].
      simpl. rewrite drop_ge; [done|lia].
Qed.

Lemma grid_spec (subset : list Row) :
  concat (grid subset) = subset
  ∧ Forall (λ chunk, (1 ≤ length chunk ≤ 5)%nat) (grid subset).
Proof.
  destruct (range_go_windows subset (length subset) 0) as [Hc Hr]; [lia..|].
  assert (Hg : grid subset
               = map (λ s : nat, take 5 (drop s subset))
                     (range 0 (length subset) 5)).
  { unfold grid, range. apply map_ext_in. intros s Hs.
    rewrite Forall_forall in Hr. apply list_elem_of_In, Hr in Hs.
    rewrite (iloc_window subset (Z.of_nat s) 5) by lia.
    by rewrite Nat2Z.id. }
  rewrite Hg. split; [exact Hc|].
  apply Forall_forall. intros chunk Hch.
  apply list_elem_of_In, in_map_iff in Hch as (s & <- & Hs).
  rewrite Forall_forall in Hr. apply list_elem_of_In, Hr in Hs.
  rewrite length_take, length_drop. lia.
Qed.

(** X9: the outer loop cuts the page into rows of the grid that, put one
    after the other, are the page; each has between one and five cards,
    so [cols[idx]] always exists. *)
Theorem grid_chunks (subset : list Row) :
  concat (grid subset) = subset
  ∧ Forall (λ chunk, (1 ≤ length chunk ≤ 5)%nat) (grid subset).
Proof. apply grid_spec. Qed.

(** ** The caches and the card loop *)

Lemma cache_extends_refl w : cache_extends w w.
Proof. by split. Qed.

Lemma cache_extends_trans w1 w2 w3 :
  cache_extends w1 w2 → cache_extends w2 w3 → cache_extends w1 w3.
Proof. intros [? ?] [? ?]. split; by etrans. Qed.

Section CardLoopFacts.

Variable network : nat → Request → outcome Response.
Variable prepare_url : string → bool.
Variable find_title : string → outcome (option string).
Variable repr_number : Q → string.

(** One call of [get_youtube_title]: a string comes back, it is in the
    cache afterwards, the caches have only grown, the probe cache is
    untouched and at most one GET was sent. *)
Lemma get_youtube_title_effects url w :
  ∃ t w', get_youtube_title network prepare_url find_title url w = (Ok t, w')
    ∧ title_cache w' !! url = Some t
    ∧ cache_extends w w'
    ∧ image_cache w' = image_cache w
    ∧ (traffic w' = traffic w ∨ traffic w' = GET url :: traffic w).
Proof.
  destruct (title_cache w !! url) as [c|] eqn:E.
  - exists c, w. rewrite (get_youtube_title_hit _ _ _ _ _ _ E).
    split; [done|]. split; [done|]. split; [apply cache_extends_refl|].
    split; [done|by left].
  - destruct (get_youtube_title_miss network prepare_url find_title _ _ E)
      as (t & _ & Hrun).
    eexists t, _. split; [exact Hrun|].
    split; [apply lookup_insert_eq|]. split.
    + split; simpl; [|by destruct (accepted prepare_url url)].
      destruct (accepted prepare_url url); by apply insert_subseteq.
    + destruct (accepted prepare_url url); split; [done|by right|done|by left].
Qed.

Lemma is_image_url_effects url w :
  ∃ b w', is_image_url network prepare_url url w = (Ok b, w')
    ∧ image_cache w' !! url = Some b
    ∧ cache_extends w w'
    ∧ title_cache w' = title_cache w
    ∧ (traffic w' = traffic w ∨ traffic w' = HEAD url :: traffic w).
Proof.
  destruct (image_cache w !! url) as [c|] eqn:E.
  - exists c, w. rewrite (is_image_url_hit _ _ _ _ _ E).
    split; [done|]. split; [done|]. split; [apply cache_extends_refl|].
    split; [done|by left].
  - rewrite (is_image_url_miss network prepare_url _ _ E).
    do 2 eexists. split; [done|].
    split; [apply lookup_insert_eq|]. split.
    + split; simpl; [by destruct (accepted prepare_url url)|].
      destruct (accepted prepare_url url); by apply insert_subseteq.
    + destruct (accepted prepare_url url); split; [done|by right|done|by left].
Qed.

(** X10: [is_image_url] never raises and is memoized like the title: the
    second call with the same URL returns the same verdict and changes
    nothing, the first sent at most one HEAD and left the title cache
    alone.  With nothing cached, one HEAD is sent when requests accepts
    the URL and nothing otherwise, and the verdict is True exactly when
    the URL has an http:// or https:// scheme, requests finds nothing
    else wrong with it, and the HEAD is answered with a Content-Type that
    contains "image"; a refused URL, an exception or an answer without
    that header gives False. *)
Theorem image_probed_once (url : string) (w : World) :
  ∃ b w1, is_image_url network prepare_url url w = (Ok b, w1)
    ∧ is_image_url network prepare_url url w1 = (Ok b, w1)
    ∧ (traffic w1 = traffic w ∨ traffic w1 = HEAD url :: traffic w)
    ∧ title_cache w1 = title_cache w
    ∧ (image_cache w !! url = None →
       (sendable url && prepare_url url = true →
        traffic w1 = HEAD url :: traffic w)
       ∧ (sendable url && prepare_url url = false → traffic w1 = traffic w)
       ∧ (b = true ↔
          sendable url = true ∧ prepare_url url = true
          ∧ ∃ res ct, network (length (traffic w)) (HEAD url) = Ok res
                      ∧ content_type res = Some ct
                      ∧ Py.contains "image" ct = true)).
Proof.
  destruct (is_image_url_effects url w) as (b & w1 & Hrun & Hc & _ & Ht & Htr).
  exists b, w1. split; [done|].
  split; [by apply is_image_url_hit|]. split; [done|]. split; [done|].
  intros Hmiss. rewrite (is_image_url_miss network prepare_url _ _ Hmiss) in Hrun.
  injection Hrun as <- <-.
  change (sendable url && prepare_url url) with (accepted prepare_url url).
  split; [by intros ->|]. split; [by intros ->|].
  exact (image_verdict network prepare_url url w).
Qed.

(** What the card of any cell is, in terms of the two helpers. *)
Lemma card_run asset w :
  let url := py_str repr_number asset in
  card network prepare_url find_title repr_number asset w =
    if Py.startswith url "http"
       && (Py.contains "youtube.com" url || Py.contains "youtu.be" url)
    then match get_youtube_title network prepare_url find_title url w with
         | (Ok t, w') => (Ok (mkCard true false (VStr t)), w')
         | (Raise e, w') => (Raise e, w')
         end
    else if Py.startswith url "http"
    then match is_image_url network prepare_url url w with
         | (Ok b, w') => (Ok (mkCard false b (if b then VStr "" else asset)), w')
         | (Raise e, w') => (Raise e, w')
         end
    else (Ok (mkCard false false asset), w).
Proof.
  intros url. unfold card. fold url.
  destruct (Py.startswith url "http") eqn:Hh; simpl.
  - destruct (Py.contains "youtube.com" url || Py.contains "youtu.be" url);
      simpl; unfold mbind, M_bind, mret, M_ret.
    + by destruct (get_youtube_title _ _ _ _) as [[t|e] w'].
    + destruct (is_image_url _ _ _) as [[b|e] w']; [|done]. by destruct b.
  - done.
Qed.

(** One card: it never raises, the caches only grow, at most one request
    is sent, and none for a text that does not start with "http". *)
Lemma card_effects asset w :
  ∃ c w', card network prepare_url find_title repr_number asset w = (Ok c, w')
    ∧ cache_extends w w'
    ∧ (traffic w' = traffic w ∨ ∃ r, traffic w' = r :: traffic w)
    ∧ (Py.startswith (py_str repr_number asset) "http" = false → w' = w)
    ∧ ∀ w2, cache_extends w' w2 →
            card network prepare_url find_title repr_number asset w2 = (Ok c, w2).
Proof.
  set (url := py_str repr_number asset).
  assert (Hrun : ∀ w0, card network prepare_url find_title repr_number asset w0 =
    if Py.startswith url "http"
       && (Py.contains "youtube.com" url || Py.contains "youtu.be" url)
    then match get_youtube_title network prepare_url find_title url w0 with
         | (Ok t, w') => (Ok (mkCard true false (VStr t)), w')
         | (Raise e, w') => (Raise e, w')
         end
    else if Py.startswith url "http"
    then match is_image_url network prepare_url url w0 with
         | (Ok b, w') => (Ok (mkCard false b (if b then VStr "" else asset)), w')
         | (Raise e, w') => (Raise e, w')
         end
    else (Ok (mkCard false false asset), w0)) by (intros w0; apply card_run).
  destruct (Py.startswith url "http") eqn:Hh;
    [destruct (Py.contains "youtube.com" url || Py.contains "youtu.be" url)
       eqn:Hm|]; cbn [andb] in Hrun.
  - destruct (get_youtube_title_effects url w)
      as (t & w' & Ht & Hc & Hext & _ & Htr).
    exists (mkCard true false (VStr t)), w'.
    split; [by rewrite Hrun, Ht|].
    split; [done|]. split; [destruct Htr; eauto|]. split; [done|].
    intros w2 [Hsub _]. rewrite Hrun.
    rewrite (get_youtube_title_hit network prepare_url find_title url w2 t); [done|].
    by eapply lookup_weaken.
  - destruct (is_image_url_effects url w)
      as (b & w' & Hb & Hc & Hext & _ & Htr).
    exists (mkCard false b (if b then VStr "" else asset)), w'.
    split; [by rewrite Hrun, Hb|].
    split; [done|]. split; [destruct Htr; eauto|]. split; [done|].
    intros w2 [_ Hsub]. rewrite Hrun.
    rewrite (is_image_url_hit network prepare_url url w2 b); [done|].
    by eapply lookup_weaken.
  - exists (mkCard false false asset), w.
    split; [by rewrite Hrun|].
    split; [apply cache_extends_refl|]. split; [by left|]. split; [done|].
    intros w2 _. by rewrite Hrun.
Qed.

Lemma cards_cons row rest w c w1 cs w' :
  card network prepare_url find_title repr_number (cell row "Asset") w = (Ok c, w1) →
  cards network prepare_url find_title repr_number rest w1 = (Ok cs, w') →
  cards network prepare_url find_title repr_number (row :: rest) w = (Ok (c :: cs), w').
Proof.
  intros Hc Hcs. cbn [cards]. unfold mbind, M_bind, mret, M_ret.
  by rewrite Hc, Hcs.
Qed.

Lemma cards_run (subset : list Row) (w : World) :
  ∃ cs w', cards network prepare_url find_title repr_number subset w = (Ok cs, w')
    ∧ length cs = length subset
    ∧ cache_extends w w'
    ∧ ∃ sent, traffic w' = sent ++ traffic w
              ∧ (length sent ≤ length subset)%nat.
Proof.
  revert w. induction subset as [|row rest IH]; intros w.
  - exists [], w. split; [done|]. split; [done|].
    split; [apply cache_extends_refl|]. by exists [].
  - destruct (card_effects (cell row "Asset") w)
      as (c & w1 & Hc & Hext1 & Htr1 & _).
    destruct (IH w1) as (cs & w' & Hcs & Hlen & Hext & sent & Htr & Hn).
    exists (c :: cs), w'. split; [by eapply cards_cons|].
    split; [simpl; lia|]. split; [by eapply cache_extends_trans|].
    destruct Htr1 as [Heq|[r Heq]]; rewrite Heq in Htr.
    + exists sent. split; [done|]. simpl. lia.
    + exists (sent ++ [r]). split; [by rewrite <- app_assoc|].
      rewrite length_app. simpl. lia.
Qed.

(** X11: the card loop never raises, whatever the network and the cells:
    it returns one card per row, sends at most one request per row, and
    only adds to the caches. *)
Theorem cards_total (subset : list Row) (w : World) :
  ∃ cs w', cards network prepare_url find_title repr_number subset w = (Ok cs, w')
    ∧ length cs = length subset
    ∧ cache_extends w w'
    ∧ ∃ sent, traffic w' = sent ++ traffic w
              ∧ (length sent ≤ length subset)%nat.
Proof. apply cards_run. Qed.

(** X12: rendering the same rows again costs nothing: in the world that
    the card loop left, or any world whose caches hold at least as much,
    the loop returns the same cards and leaves the world as it is, so it
    sends no request. *)
Theorem cards_again (subset : list Row) (w : World) :
  ∃ cs w', cards network prepare_url find_title repr_number subset w = (Ok cs, w')
    ∧ cards network prepare_url find_title repr_number subset w' = (Ok cs, w')
    ∧ ∀ w2, cache_extends w' w2 →
            cards network prepare_url find_title repr_number subset w2 = (Ok cs, w2).
Proof.
  assert (H : ∃ cs w',
    cards network prepare_url find_title repr_number subset w = (Ok cs, w')
    ∧ cache_extends w w'
    ∧ ∀ w2, cache_extends w' w2 →
            cards network prepare_url find_title repr_number subset w2 = (Ok cs, w2)).
  { revert w. induction subset as [|row rest IH]; intros w.
    - exists [], w. split; [done|]. split; [apply cache_extends_refl|done].
    - destruct (card_effects (cell row "Asset") w)
        as (c & w1 & Hc & Hext1 & _ & _ & Hstable).
      destruct (IH w1) as (cs & w' & Hcs & Hext & Hagain).
      exists (c :: cs), w'. split; [by eapply cards_cons|].
      split; [by eapply cache_extends_trans|].
      intros w2 Hw2. eapply cards_cons.
      + apply Hstable. by eapply cache_extends_trans.
      + by apply Hagain. }
  destruct H as (cs & w' & Hrun & _ & Hagain).
  exists cs, w'. split; [done|]. split; [|done].
  apply Hagain, cache_extends_refl.
Qed.

(** One chunk in its columns: the same cards as the plain loop, numbered
    from [idx], as long as the columns suffice. *)
Lemma chunk_cards_cards ncols chunk idx w cs w' :
  (idx + length chunk ≤ ncols)%nat →
  cards network prepare_url find_title repr_number chunk w = (Ok cs, w') →
  chunk_cards network prepare_url find_title repr_number ncols idx chunk w
  = (Ok (zip (seq idx (length chunk)) cs), w').
Proof.
  revert idx w cs. induction chunk as [|row rest IH]; intros idx w cs Hn Hcs.
  - cbn in Hcs. by injection Hcs as <- <-.
  - destruct (card_effects (cell row "Asset") w) as (c & w1 & Hc & _).
    destruct (cards_run rest w1) as (cs' & w'' & Hcs' & _).
    rewrite (cards_cons _ _ _ _ _ _ _ Hc Hcs') in Hcs.
    injection Hcs as <- <-.
    simpl in Hn. cbn [chunk_cards].
    rewrite (proj2 (Nat.ltb_lt idx ncols)) by lia.
    unfold mbind, M_bind, mret, M_ret. rewrite Hc.
    by rewrite (IH (S idx) w1 cs') by (done || lia).
Qed.

Lemma cards_app l1 l2 w cs1 w1 cs2 w2 :
  cards network prepare_url find_title repr_number l1 w = (Ok cs1, w1) →
  cards network prepare_url find_title repr_number l2 w1 = (Ok cs2, w2) →
  cards network prepare_url find_title repr_number (l1 ++ l2) w = (Ok (cs1 ++ cs2), w2).
Proof.
  revert w cs1. induction l1 as [|row rest IH]; intros w cs1 H1 H2.
  - cbn in H1. by injection H1 as <- <-.
  - destruct (card_effects (cell row "Asset") w) as (c & w' & Hc & _).
    destruct (cards_run rest w') as (cs' & w'' & Hcs' & _).
    rewrite (cards_cons _ _ _ _ _ _ _ Hc Hcs') in H1.
    injection H1 as <- <-. simpl.
    eapply cards_cons; [done|]. by eapply IH.
Qed.

Lemma chunks_cards_cards chunks w :
  Forall (λ chunk, (length chunk ≤ 5)%nat) chunks →
  ∃ cs g w',
    cards network prepare_url find_title repr_number (concat chunks) w = (Ok cs, w')
    ∧ chunks_cards network prepare_url find_title repr_number chunks w = (Ok g, w')
    ∧ map snd (concat g) = cs
    ∧ Forall2 (λ chunk placed,
                 map fst placed = seq 0 (length chunk)
                 ∧ (length chunk ≤ 5)%nat)
              chunks g.
Proof.
  intros Hall. revert w. induction Hall as [|chunk rest Hch _ IH]; intros w.
  - exists [], [], w. by repeat split.
  - destruct (cards_run chunk w) as (cs1 & w1 & Hcs1 & Hlen1 & _).
    destruct (IH w1) as (cs2 & g & w' & Hcs2 & Hg & Hsnd & Hfst).
    exists (cs1 ++ cs2), (zip (seq 0 (length chunk)) cs1 :: g), w'.
    split; [by eapply cards_app|]. split.
    + cbn [chunks_cards]. unfold mbind, M_bind, mret, M_ret.
      rewrite (chunk_cards_cards 5 chunk 0 w cs1 w1) by (done || lia).
      by rewrite Hg.
    + split.
      * cbn [concat]. rewrite map_app, Hsnd. f_equal.
        change (map snd ?x) with (x.*2). apply snd_zip.
        rewrite length_seq. lia.
      * constructor; [|done]. split; [|done].
        change (map fst ?x) with (x.*1). apply fst_zip.
        rewrite length_seq. lia.
Qed.

(** X13: the loop of lines 142-173 never runs out of columns: it returns
    the cards of the plain loop over the page, in the same order and with
    the same effects, each chunk numbered 0, 1, ... in its row of the
    grid. *)
Theorem card_loop_places_cards (subset : list Row) (w : World) :
  ∃ cs g w',
    cards network prepare_url find_title repr_number subset w = (Ok cs, w')
    ∧ card_loop network prepare_url find_title repr_number subset w = (Ok g, w')
    ∧ map snd (concat g) = cs
    ∧ Forall2 (λ chunk placed,
                 map fst placed = seq 0 (length chunk)
                 ∧ (length chunk ≤ 5)%nat)
              (grid subset) g.
Proof.
  destruct (grid_spec subset) as [Hconcat Hsizes].
  destruct (chunks_cards_cards (grid subset) w) as (cs & g & w' & H1 & H2 & H3 & H4).
  { eapply Forall_impl; [exact Hsizes|]. simpl. lia. }
  rewrite Hconcat in H1. exists cs, g, w'.
  by repeat split.
Qed.

End CardLoopFacts.

(** ** The embed URL *)

Lemma replace_go_absent old new s :
  Py.contains old s = false → replace_go old new 0 s = s.
Proof.
  induction s as [|c s IH]; [done|]. cbn [Py.contains replace_go].
  intros H. apply orb_false_iff in H as [Hp Hc]. rewrite Hp. by rewrite IH.
Qed.

(** X14: line 163 turns both forms of a video link into the embed address
    of the same video: "https://youtu.be/ID" becomes
    "https://youtube.com/embed/ID" and
    "https://www.youtube.com/watch?v=ID" becomes
    "https://www.youtube.com/embed/ID", for every ID that contains neither
    "watch?v=" nor "youtu.be/". *)
Theorem embed_url_of_video_links (id : string) :
  Py.contains "watch?v=" id = false →
  Py.contains "youtu.be/" id = false →
  embed_url ("https://youtu.be/" +:+ id) = "https://youtube.com/embed/" +:+ id
  ∧ embed_url ("https://www.youtube.com/watch?v=" +:+ id)
    = "https://www.youtube.com/embed/" +:+ id.
Proof.
  intros Hw Hy. unfold embed_url, str_replace. split.
  - rewrite !append_cons. change ("" +:+ id) with id.
    cbn [replace_go String.prefix String.length Nat.sub].
    cbn. rewrite (replace_go_absent _ _ id Hw).
    cbn. rewrite prefix_empty. cbn. by rewrite (replace_go_absent _ _ id Hy).
  - rewrite !append_cons. change ("" +:+ id) with id.
    cbn. rewrite prefix_empty. cbn. rewrite (replace_go_absent _ _ id Hw).
    rewrite !append_cons. change ("" +:+ id) with id.
    cbn. by rewrite (replace_go_absent _ _ id Hy).
Qed.

Lemma embed_url_of_video_links_witness :
  Py.contains "watch?v=" "abc123" = false
  ∧ Py.contains "youtu.be/" "abc123" = false
  ∧ embed_url "https://youtu.be/abc123" = "https://youtube.com/embed/abc123"
  ∧ embed_url "https://www.youtube.com/watch?v=abc123"
    = "https://www.youtube.com/embed/abc123".
Proof.
  split; [reflexivity|]. split; [reflexivity|].
  exact (embed_url_of_video_links "abc123" eq_refl eq_refl).
Defined.

(** ** The options of the multiselects and the distribution *)

Lemma value_eqb_sym a b : value_eqb a b = value_eqb b a.
Proof.
  destruct a as [x|s|], b as [y|t|]; simpl; try done.
  - apply eq_true_iff_eq. rewrite !Qeq_bool_iff. split; intros H; by symmetry.
  - apply String.eqb_sym.
Qed.

Lemma not_covered_cons v a seen :
  existsb (value_eqb v) (a :: seen) = false →
  value_eqb a v = false ∧ existsb (value_eqb v) seen = false.
Proof.
  simpl. intros H. apply orb_false_iff in H as [H1 H2].
  by rewrite value_eqb_sym.
Qed.

(** What [unique] returns: values of the list, in its order, no two of
    them equal, none equal to one seen before. *)
Lemma unique_go_distinct seen l :
  sublist (unique_go seen l) l
  ∧ ForallOrdPairs (λ a b, value_eqb a b = false) (unique_go seen l)
  ∧ Forall (λ v, existsb (value_eqb v) seen = false) (unique_go seen l).
Proof.
  revert seen. induction l as [|a l IH]; intros seen; simpl.
  - repeat split; constructor.
  - destruct (existsb (value_eqb a) seen) eqn:Ea.
    + destruct (IH seen) as (Hs & Hd & Hn). split; [by constructor|done].
    + destruct (IH (a :: seen)) as (Hs & Hd & Hn).
      split; [by constructor|]. split.
      * constructor; [|done]. eapply Forall_impl; [exact Hn|].
        intros v Hv. by apply not_covered_cons in Hv as [? _].
      * constructor; [done|]. eapply Forall_impl; [exact Hn|].
        intros v Hv. by apply not_covered_cons in Hv as [_ ?].
Qed.

(** X15: the options that [unique] gives a multiselect are values of the
    column, in the order of their first appearance and no two of them
    equal, and every cell of the column matches one of them. *)
Theorem unique_options (l : list value) :
  sublist (unique l) l
  ∧ ForallOrdPairs (λ a b, value_eqb a b = false) (unique l)
  ∧ ∀ v, v ∈ l → isin (unique l) v = true.
Proof.
  destruct (unique_go_distinct [] l) as (Hs & Hd & _).
  split; [done|]. split; [done|]. apply isin_unique.
Qed.

Lemma filter_or_length {A} (P Q : A → bool) (l : list A) :
  (∀ x, P x = true → Q x = true → False) →
  length (List.filter (λ x, P x || Q x) l)
  = (length (List.filter P l) + length (List.filter Q l))%nat.
Proof.
  intros Hdis. induction l as [|x l IH]; [done|]. simpl.
  destruct (P x) eqn:Ep, (Q x) eqn:Eq; simpl; rewrite IH; try lia.
  by destruct (Hdis x).
Qed.

(** The counts of values no two of which are equal add up to the number of
    cells that equal one of them. *)
Lemma count_eq_sum (U L : list value) :
  ForallOrdPairs (λ a b, value_eqb a b = false) U →
  sum_list (map (λ v, count_eq v L) U)
  = length (List.filter (λ x, existsb (λ v, value_eqb v x) U) L).
Proof.
  induction 1 as [|v U Hv _ IH]; simpl.
  - induction L as [|x L IHL]; [done|]. by simpl.
  - rewrite IH. unfold count_eq. symmetry. apply filter_or_length.
    intros x Hvx Hux. apply existsb_exists in Hux as (u & Hu & Hux).
    rewrite Forall_forall in Hv. apply list_elem_of_In, Hv in Hu.
    rewrite (value_eqb_trans v x u) in Hu; [done..|].
    by rewrite value_eqb_sym.
Qed.

Lemma unique_counts_total (l : list value) :
  sum_list (map (λ v, count_eq v l) (unique l)) = length l.
Proof.
  destruct (unique_go_distinct [] l) as (_ & Hd & _).
  rewrite count_eq_sum by done. f_equal. apply filter_all, Forall_forall.
  intros x Hx. pose proof (isin_unique l x Hx) as Hcov. unfold isin in Hcov.
  apply existsb_exists in Hcov as (u & Hu & Hxu).
  apply existsb_exists. exists u. split; [done|]. by rewrite value_eqb_sym.
Qed.

(** X16: with a kernel that returns a permutation of the positions, the
    distribution has one bar per distinct asset type that is not missing;
    each count is the number of cells equal to its value and is at least
    one; and the counts add up to the number of cells that are not
    missing. *)
Theorem value_counts_total (argsort : list Q → list nat) (l : list value) :
  (∀ ks, argsort ks ≡ₚ seq 0 (length ks)) →
  let present := List.filter (λ v, negb (isna v)) l in
  sum_list (map snd (value_counts argsort l)) = length present
  ∧ map fst (value_counts argsort l) ≡ₚ unique present
  ∧ Forall (λ p, isna (fst p) = false
                 ∧ snd p = count_eq (fst p) present
                 ∧ (1 ≤ snd p)%nat)
           (value_counts argsort l).
Proof.
  intros Hperm present. unfold value_counts. fold present.
  set (entries := map (λ v, (v, count_eq v present)) (unique present)).
  pose proof (nargsort_perm argsort
    (λ p : value * nat, inject_Z (Z.of_nat (snd p))) Hperm false entries) as Hp.
  split; [|split].
  - rewrite Hp. subst entries. rewrite map_map. simpl.
    apply unique_counts_total.
  - rewrite Hp. subst entries. rewrite map_map. simpl. by rewrite map_id.
  - eapply Permutation_Forall; [symmetry; exact Hp|].
    subst entries. apply Forall_forall. intros p Hin.
    apply list_elem_of_In, in_map_iff in Hin as (v & <- & Hv). simpl.
    destruct (unique_go_distinct [] present) as (Hsub & _).
    assert (Hvp : In v present).
    { apply list_elem_of_In. eapply elem_of_sublist; [|exact Hsub].
      by apply list_elem_of_In. }
    split; [|split; [done|]].
    + subst present. apply filter_In in Hvp as [_ Hna]. by destruct (isna v).
    + unfold count_eq.
      assert (In v (List.filter (value_eqb v) present)) as Hin
        by (apply filter_In; split; [done|apply value_eqb_refl]).
      destruct (List.filter (value_eqb v) present); [done|simpl; lia].
Qed.

Lemma value_counts_total_witness :
  sum_list (map snd (value_counts stable_argsort (column sheet "Asset type")))
  = 6%nat
  ∧ value_counts stable_argsort (column sheet "Asset type")
    = [(VStr "Text", 3%nat); (VStr "Video", 2%nat); (VStr "Image", 1%nat)].
Proof.
  split; [|vm_compute; reflexivity].
  destruct (value_counts_total stable_argsort (column sheet "Asset type")
              stable_argsort_perm) as [H _].
  rewrite H. vm_compute. reflexivity.
Defined.

(** ** The averages of a loaded frame *)

Lemma numbers_all_num (l : list value) :
  Forall (λ v, is_num v = true) l → numbers l = map num_key l.
Proof.
  induction 1 as [|v l Hv _ IH]; [done|].
  destruct v; try done. simpl. by rewrite IH.
Qed.

(** X17: on a frame that [load_data] returned and that has a row, every
    average of the summary is a number, never missing: the sum of the
    column over all the rows divided by the number of rows. *)
Theorem loaded_averages (parse_number : string → option Q)
    (argsort : list Q → list nat) (df df' : DataFrame) :
  load_data parse_number df = Ok df' →
  rows df' ≠ [] →
  let s := summarize argsort df' in
  avg_clicks s = column_average df' "Clicks"
  ∧ avg_impr s = column_average df' "Impr."
  ∧ avg_installs s = column_average df' "Installs"
  ∧ avg_cost s = column_average df' "Cost"
  ∧ avg_ctr s = column_average df' "CTR"
  ∧ avg_cpi s = column_average df' "CPI".
Proof.
  intros Hload Hne s.
  assert (H : ∀ c, c ∈ ["Clicks"; "Impr."; "CTR"; "Cost"; "Installs"; "CPI"] →
                   mean (column df' c) = column_average df' c).
  { intros c Hc.
    pose proof (loaded_sort_columns_numeric parse_number df df' c Hload Hc)
      as Hnum.
    unfold mean, column_average, column.
    rewrite numbers_all_num.
    - rewrite map_map. destruct (rows df') as [|r l]; [done|].
      cbn [map]. by rewrite !length_cons, !length_map.
    - apply Forall_forall. intros v Hv.
      apply list_elem_of_In, in_map_iff in Hv as (r & <- & Hr).
      rewrite Forall_forall in Hnum. by apply Hnum, list_elem_of_In. }
  subst s. unfold summarize; cbn.
  repeat split; apply H; set_solver.
Qed.

Lemma loaded_averages_witness :
  load_data read_integer sheet = Ok loaded_sheet
  ∧ rows loaded_sheet ≠ []
  ∧ avg_cost (summarize stable_argsort loaded_sheet) = VNum (23 # 4)
  ∧ avg_cpi (summarize stable_argsort loaded_sheet)
    = column_average loaded_sheet "CPI".
Proof.
  assert (H1 : load_data read_integer sheet = Ok loaded_sheet)
    by (vm_compute; reflexivity).
  assert (H2 : rows loaded_sheet ≠ []) by (vm_compute; discriminate).
  split; [exact H1|]. split; [exact H2|].
  destruct (loaded_averages read_integer stable_argsort sheet loaded_sheet H1 H2)
    as (_ & _ & _ & Hcost & _ & Hcpi).
  split; [|exact Hcpi]. rewrite Hcost. vm_compute. reflexivity.
Defined.

(** The third page of a selection of 23 rows holds the last three, and the
    footer says so. *)
Example third_page_of_23 :
  let p := paginate long_sheet (Some 3%Z) in
  pages p = 3%Z ∧ map label (subset p) = [20; 21; 22]%nat
  ∧ footer 23 p = Some (21%Z, 23%Z, 23%Z)
  ∧ map (map label) (grid (subset (paginate long_sheet None)))
    = [[0; 1; 2; 3; 4]; [5; 6; 7; 8; 9]]%nat.
Proof. vm_compute. repeat split; reflexivity. Qed.
